(** * chip.c, a CHIP-8 interpreter: shallow embedding and checked properties

    The machine of [chip.c] is one global struct [chip8] and one global
    array [keys].  The struct becomes the record [chip8] below and every
    function of the C file that touches it becomes a function on that
    record.  C integers are [Z] with the wrap-around of their type written
    out ([u8], [u16], [u32]); C arrays are lists whose declared capacity is
    checked at each access that the code does not bound by construction. *)

From Stdlib Require Import ZArith List Lia Bool.
From Stdlib.Strings Require Import Byte.
From stdpp Require Import base list numbers.
Local Open Scope Z_scope.

(** ** Constants of the [CHIP8_CONSTANTS] enum *)

Definition CHIP8_RAM_CAPACITY : Z := 0x1000.
Definition CHIP8_RAM_ENTRYPOINT : Z := 0x200.
Definition CHIP8_REGISTER_COUNT : Z := 0x10.
Definition CHIP8_STACK_CAPACITY : Z := 0x10.
Definition CHIP8_DISPLAY_WIDTH : Z := 0x40.
Definition CHIP8_DISPLAY_HEIGHT : Z := 0x20.
Definition KEYS_COUNT : Z := 0x10.

(** ** Integer types *)

(** Conversion to [uint8_t], [uint16_t], [uint32_t]. *)
Definition u8 (z : Z) : Z := z mod 0x100.
Definition u16 (z : Z) : Z := z mod 0x10000.
Definition u32 (z : Z) : Z := z mod 0x100000000.

(** Conversion of a [uint32_t] value to [int] (two's complement). *)
Definition to_int (z : Z) : Z :=
  if z <? 0x80000000 then z else z - 0x100000000.

(** ** The machine state *)

Record chip8 : Type := Chip8 {
  pc : Z;                    (* uint16_t *)
  ram : list Z;              (* uint8_t [CHIP8_RAM_CAPACITY] *)
  v : list Z;                (* uint8_t [CHIP8_REGISTER_COUNT] *)
  delay : Z;                 (* uint8_t *)
  sound : Z;                 (* uint8_t *)
  I : Z;                     (* uint16_t *)
  sp : Z;                    (* uint8_t *)
  stack : list Z;            (* uint16_t [CHIP8_STACK_CAPACITY] *)
  display : list (list Z)    (* uint32_t [CHIP8_DISPLAY_HEIGHT][CHIP8_DISPLAY_WIDTH] *)
}.

Definition set_pc (x : Z) (s : chip8) : chip8 :=
  Chip8 x (ram s) (v s) (delay s) (sound s) (I s) (sp s) (stack s) (display s).
Definition set_ram (x : list Z) (s : chip8) : chip8 :=
  Chip8 (pc s) x (v s) (delay s) (sound s) (I s) (sp s) (stack s) (display s).
Definition set_v (x : list Z) (s : chip8) : chip8 :=
  Chip8 (pc s) (ram s) x (delay s) (sound s) (I s) (sp s) (stack s) (display s).
Definition set_delay (x : Z) (s : chip8) : chip8 :=
  Chip8 (pc s) (ram s) (v s) x (sound s) (I s) (sp s) (stack s) (display s).
Definition set_I (x : Z) (s : chip8) : chip8 :=
  Chip8 (pc s) (ram s) (v s) (delay s) (sound s) x (sp s) (stack s) (display s).
Definition set_sp (x : Z) (s : chip8) : chip8 :=
  Chip8 (pc s) (ram s) (v s) (delay s) (sound s) (I s) x (stack s) (display s).
Definition set_stack (x : list Z) (s : chip8) : chip8 :=
  Chip8 (pc s) (ram s) (v s) (delay s) (sound s) (I s) (sp s) x (display s).
Definition set_display (x : list (list Z)) (s : chip8) : chip8 :=
  Chip8 (pc s) (ram s) (v s) (delay s) (sound s) (I s) (sp s) (stack s) x.

(** ** Results of running C code *)

(** An array access outside the declared capacity of the array. *)
Inductive access : Type :=
| RamAt (i : Z)
| StackAt (i : Z)
| KeysAt (i : Z)
| DisplayAt (row col : Z).

(** What a piece of the interpreter does: it completes with a value, it
    leaves through [unimplemented_instruction] ([exit (EXIT_FAILURE)] after
    printing the opcode), or it indexes an array outside its bounds, which
    the C code never checks and which is undefined behaviour. *)
Inductive outcome (A : Type) : Type :=
| Ok (a : A)
| Exit (opcode : Z)
| Undefined (a : access).
Arguments Ok {A} a.
Arguments Exit {A} opcode.
Arguments Undefined {A} a.

Definition bind {A B : Type} (m : outcome A) (f : A -> outcome B) : outcome B :=
  match m with
  | Ok a => f a
  | Exit o => Exit o
  | Undefined a => Undefined a
  end.

Notation "x <- m ;; k" := (bind m (fun x => k))
  (at level 100, m at next level, right associativity).

(** [for (int i = lo; i < lo + n; i++) body], threading the state. *)
Fixpoint for_loop {A : Type} (n : nat) (i : Z) (body : Z -> A -> outcome A) (a : A)
  : outcome A :=
  match n with
  | O => Ok a
  | S n' => a' <- body i a ;; for_loop n' (i + 1) body a'
  end.

(** ** Array accesses *)

Definition in_range (i n : Z) : bool := (0 <=? i) && (i <? n).

Definition get (l : list Z) (i : Z) : Z := l !!! Z.to_nat i.
Definition put (l : list Z) (i x : Z) : list Z := <[Z.to_nat i := x]> l.

Definition ram_load (s : chip8) (i : Z) : outcome Z :=
  if in_range i CHIP8_RAM_CAPACITY then Ok (get (ram s) i) else Undefined (RamAt i).

Definition ram_store (i x : Z) (s : chip8) : outcome chip8 :=
  if in_range i CHIP8_RAM_CAPACITY
  then Ok (set_ram (put (ram s) i (u8 x)) s)
  else Undefined (RamAt i).

Definition stack_load (s : chip8) (i : Z) : outcome Z :=
  if in_range i CHIP8_STACK_CAPACITY then Ok (get (stack s) i) else Undefined (StackAt i).

Definition stack_store (i x : Z) (s : chip8) : outcome chip8 :=
  if in_range i CHIP8_STACK_CAPACITY
  then Ok (set_stack (put (stack s) i (u16 x)) s)
  else Undefined (StackAt i).

Definition keys_load (keys : list Z) (i : Z) : outcome Z :=
  if in_range i KEYS_COUNT then Ok (get keys i) else Undefined (KeysAt i).

Definition in_grid (r c : Z) : bool :=
  in_range r CHIP8_DISPLAY_HEIGHT && in_range c CHIP8_DISPLAY_WIDTH.

Definition cell (d : list (list Z)) (r c : Z) : Z :=
  (d !!! Z.to_nat r) !!! Z.to_nat c.

Definition display_load (s : chip8) (r c : Z) : outcome Z :=
  if in_grid r c then Ok (cell (display s) r c) else Undefined (DisplayAt r c).

Definition display_store (r c x : Z) (s : chip8) : outcome chip8 :=
  if in_grid r c
  then Ok (set_display
             (<[Z.to_nat r := put (display s !!! Z.to_nat r) c (u32 x)]> (display s)) s)
  else Undefined (DisplayAt r c).

(** Registers are only indexed by a 4-bit field of the opcode, by the loop
    counter of Fx55/Fx65 (at most that field) or by the constant [0xf]. *)
Definition reg (s : chip8) (x : Z) : Z := get (v s) x.
Definition set_reg (x b : Z) (s : chip8) : chip8 := set_v (put (v s) x (u8 b)) s.

(** [chip8.pc += k] *)
Definition add_pc (k : Z) (s : chip8) : chip8 := set_pc (u16 (pc s + k)) s.

(** ** chip8_current_opcode *)

Definition chip8_current_opcode (s : chip8) : outcome Z :=
  hi <- ram_load s (pc s) ;;
  lo <- ram_load s (pc s + 1) ;;
  Ok (u16 (Z.lor (Z.shiftl hi 8) lo)).

(** ** unimplemented_instruction *)

Definition unimplemented_instruction {A : Type} (opcode : Z) : outcome A :=
  Exit opcode.

(** ** chip8_sprite_draw *)

(** The body of the inner loop, for row [i] and column [j] of the sprite;
    named [cell] in the C code, the sprite row is [row] here. *)
Definition draw_pixel (x y i row j : Z) (s : chip8) : outcome chip8 :=
  if Z.land row (Z.shiftr 0x80 j) =? 0 then Ok s
  else
    d <- display_load s (y + i) (x + j) ;;
    let pixel := to_int d in
    let s1 := if d =? 0 then s else set_reg 0xf 1 s in
    let pixel' := Z.lxor pixel row in
    display_store (y + i) (x + j) (u32 pixel' * 0xffffffff) s1.

Definition draw_row (x y i : Z) (s : chip8) : outcome chip8 :=
  row <- ram_load s (I s + i) ;;
  for_loop 8 0 (draw_pixel x y i row) s.

Definition chip8_sprite_draw (x y n : Z) (s : chip8) : outcome chip8 :=
  for_loop (Z.to_nat n) 0 (draw_row x y) (set_reg 0xf 0 s).

(** ** chip8_execute_instruction *)

(** The fields of an opcode, as the C code extracts them. *)
Definition op_family (opcode : Z) : Z := Z.land opcode 0xf000.
Definition op_x (opcode : Z) : Z := Z.shiftr (Z.land opcode 0x0f00) 8.
Definition op_y (opcode : Z) : Z := Z.shiftr (Z.land opcode 0x00f0) 4.
Definition op_n (opcode : Z) : Z := Z.land opcode 0x000f.
Definition op_nn (opcode : Z) : Z := Z.land opcode 0x00ff.
Definition op_nnn (opcode : Z) : Z := Z.land opcode 0x0fff.

(** [pc += 4] when the test holds, [pc += 2] otherwise. *)
Definition skip_if (b : bool) (s : chip8) : chip8 :=
  if b then add_pc 4 s else add_pc 2 s.

(** 00E0: both loops over the display. *)
Definition clear_display (s : chip8) : outcome chip8 :=
  for_loop (Z.to_nat CHIP8_DISPLAY_HEIGHT) 0
    (fun i => for_loop (Z.to_nat CHIP8_DISPLAY_WIDTH) 0 (fun j => display_store i j 0)) s.

(** [case 0x0000]: the inner switch has no default. *)
Definition exec_0 (opcode : Z) (s : chip8) : outcome chip8 :=
  if op_nn opcode =? 0xe0 then
    s1 <- clear_display s ;;
    Ok (add_pc 2 s1)
  else if op_nn opcode =? 0xee then
    let s1 := set_sp (u8 (sp s - 1)) s in
    a <- stack_load s1 (sp s1) ;;
    Ok (add_pc 2 (set_pc a s1))
  else Ok s.

(** [case 0x2000]: [chip8.stack[chip8.sp++] = chip8.pc]. *)
Definition exec_call (opcode : Z) (s : chip8) : outcome chip8 :=
  s1 <- stack_store (sp s) (pc s) s ;;
  Ok (set_pc (op_nnn opcode) (set_sp (u8 (sp s + 1)) s1)).

(** [case 0x8000]: only 8xy0 is implemented, 8xy1..8xy7 and 8xyE leave
    through [unimplemented_instruction], the inner switch has no default. *)
Definition exec_8 (opcode : Z) (s : chip8) : outcome chip8 :=
  let n := op_n opcode in
  if n =? 0x0 then Ok (add_pc 2 (set_reg (op_x opcode) (reg s (op_y opcode)) s))
  else if (n =? 0x1) || (n =? 0x2) || (n =? 0x3) || (n =? 0x4)
          || (n =? 0x5) || (n =? 0x6) || (n =? 0x7) || (n =? 0xe)
  then unimplemented_instruction opcode
  else Ok s.

(** [case 0xe000]: the key index is a register value. *)
Definition exec_e (keys : list Z) (opcode : Z) (s : chip8) : outcome chip8 :=
  if op_nn opcode =? 0x9e then
    k <- keys_load keys (reg s (op_x opcode)) ;;
    Ok (skip_if (k =? 1) s)
  else if op_nn opcode =? 0xa1 then
    k <- keys_load keys (reg s (op_x opcode)) ;;
    Ok (skip_if (k =? 0) s)
  else Ok s.

(** The loop of Fx0A, [for (i = lo; i < lo + n; i++) if (keys[i]) { ...; break; }]:
    the index at which the loop breaks, if it does. *)
Fixpoint first_key (keys : list Z) (n : nat) (i : Z) : option Z :=
  match n with
  | O => None
  | S n' => if get keys i =? 0 then first_key keys n' (i + 1) else Some i
  end.

(** [case 0xf000] *)
Definition exec_f (keys : list Z) (opcode : Z) (s : chip8) : outcome chip8 :=
  let x := op_x opcode in
  let nn := op_nn opcode in
  if nn =? 0x07 then Ok (add_pc 2 (set_reg x (delay s) s))
  else if nn =? 0x0a then
    match first_key keys (Z.to_nat KEYS_COUNT) 0 with
    | Some i => Ok (add_pc 2 (set_reg x i s))
    | None => Ok s
    end
  else if nn =? 0x15 then Ok (add_pc 2 (set_delay (reg s x) s))
  else if nn =? 0x18 then unimplemented_instruction opcode
  else if nn =? 0x1e then Ok (add_pc 2 (set_I (u16 (I s + reg s x)) s))
  else if nn =? 0x29 then Ok (add_pc 2 (set_I (u16 (reg s x * 5)) s))
  else if nn =? 0x33 then
    s1 <- ram_store (I s) (reg s x / 100) s ;;
    s2 <- ram_store (I s + 1) ((reg s x / 10) mod 10) s1 ;;
    s3 <- ram_store (I s + 2) (reg s x mod 10) s2 ;;
    Ok (add_pc 2 s3)
  else if nn =? 0x55 then
    s1 <- for_loop (Z.to_nat (x + 1)) 0 (fun i t => ram_store (I t + i) (reg t i) t) s ;;
    Ok (add_pc 2 (set_I (u16 (I s1 + (x + 1))) s1))
  else if nn =? 0x65 then
    s1 <- for_loop (Z.to_nat (x + 1)) 0
            (fun i t => b <- ram_load t (I t + i) ;; Ok (set_reg i b t)) s ;;
    Ok (add_pc 2 (set_I (u16 (I s1 + (x + 1))) s1))
  else Ok s.

(** One instruction cycle.  [keys] is the global key array as the event
    loop left it, [rnd] the value [random ()] returns if it is called. *)
Definition chip8_execute_instruction (keys : list Z) (rnd : Z) (s : chip8)
  : outcome chip8 :=
  opcode <- chip8_current_opcode s ;;
  let x := op_x opcode in
  let y := op_y opcode in
  let nn := op_nn opcode in
  let f := op_family opcode in
  if f =? 0x0000 then exec_0 opcode s
  else if f =? 0x1000 then Ok (set_pc (op_nnn opcode) s)
  else if f =? 0x2000 then exec_call opcode s
  else if f =? 0x3000 then Ok (skip_if (reg s x =? nn) s)
  else if f =? 0x4000 then Ok (skip_if (negb (reg s x =? nn)) s)
  else if f =? 0x5000 then unimplemented_instruction opcode
  else if f =? 0x6000 then Ok (add_pc 2 (set_reg x nn s))
  else if f =? 0x7000 then Ok (add_pc 2 (set_reg x (reg s x + nn) s))
  else if f =? 0x8000 then exec_8 opcode s
  else if f =? 0x9000 then Ok (skip_if (negb (reg s x =? reg s y)) s)
  else if f =? 0xa000 then Ok (add_pc 2 (set_I (op_nnn opcode) s))
  else if f =? 0xb000 then unimplemented_instruction opcode
  else if f =? 0xc000 then Ok (add_pc 2 (set_reg x (Z.land (rnd mod 0x100) nn) s))
  else if f =? 0xd000 then
    s1 <- chip8_sprite_draw (reg s x) (reg s y) (op_n opcode) s ;;
    Ok (add_pc 2 s1)
  else if f =? 0xe000 then exec_e keys opcode s
  else if f =? 0xf000 then exec_f keys opcode s
  else Ok s.

(** The main loop calls the cycle once per frame; [inputs] gives, frame by
    frame, the key array and the random value of that frame. *)
Fixpoint run (inputs : list (list Z * Z)) (s : chip8) : outcome chip8 :=
  match inputs with
  | [] => Ok s
  | (keys, rnd) :: rest => s' <- chip8_execute_instruction keys rnd s ;; run rest s'
  end.

(** ** chip8_init *)

Definition chip8_numbers : list Z :=
  [ 0xF0; 0x90; 0x90; 0x90; 0xF0;
    0x20; 0x60; 0x20; 0x20; 0x70;
    0xF0; 0x10; 0xF0; 0x80; 0xF0;
    0xF0; 0x10; 0xF0; 0x10; 0xF0;
    0x90; 0x90; 0xF0; 0x10; 0x10;
    0xF0; 0x80; 0xF0; 0x10; 0xF0;
    0xF0; 0x80; 0xF0; 0x90; 0xF0;
    0xF0; 0x10; 0x20; 0x40; 0x40;
    0xF0; 0x90; 0xF0; 0x90; 0xF0;
    0xF0; 0x90; 0xF0; 0x10; 0xF0;
    0xF0; 0x90; 0xF0; 0x90; 0x90;
    0xE0; 0x90; 0xE0; 0x90; 0xE0;
    0xF0; 0x80; 0x80; 0x80; 0xF0;
    0xE0; 0x90; 0x90; 0x90; 0xE0;
    0xF0; 0x80; 0xF0; 0x80; 0xF0;
    0xF0; 0x80; 0xF0; 0x80; 0x80 ].

(** [memset (&chip8, 0, sizeof (chip8))] *)
Definition zeroed : chip8 :=
  {| pc := 0;
     ram := replicate (Z.to_nat CHIP8_RAM_CAPACITY) 0;
     v := replicate (Z.to_nat CHIP8_REGISTER_COUNT) 0;
     delay := 0; sound := 0; I := 0; sp := 0;
     stack := replicate (Z.to_nat CHIP8_STACK_CAPACITY) 0;
     display := replicate (Z.to_nat CHIP8_DISPLAY_HEIGHT)
                  (replicate (Z.to_nat CHIP8_DISPLAY_WIDTH) 0) |}.

(** The state after the assignments and the font loop that follow the
    [memset]. *)
Definition reset : chip8 :=
  let s := set_pc CHIP8_RAM_ENTRYPOINT zeroed in
  set_ram (chip8_numbers ++ drop (length chip8_numbers) (ram s)) s.

Definition byte_val (b : byte) : Z := Z.of_N (Byte.to_N b).

(** Copy of [src] over [dst] from offset [off] on (the copy fits). *)
Definition blit (off : nat) (src dst : list Z) : list Z :=
  take off dst ++ src ++ drop (off + length src) dst.

(** [fread (buf, 1, count, fd)] on a regular file whose contents are [file],
    with the stream at offset [pos]: the bytes delivered. *)
Definition fread (file : list byte) (pos count : nat) : list byte :=
  take count (drop pos file).

(** [while ((nread = fread (chip8.ram + chip8.pc, 1, fsize, fd)) > 0) ntotal += nread;]
    Every turn that goes on consumes at least one byte of the file, so
    [fuel] above the file length is never used up.  The result is [ntotal]
    and the state. *)
Fixpoint read_rom (fuel : nat) (file : list byte) (pos fsize ntotal : nat) (s : chip8)
  : nat * chip8 :=
  match fuel with
  | O => (ntotal, s)
  | S fuel' =>
      let chunk := fread file pos fsize in
      let nread := length chunk in
      if Nat.eqb nread 0 then (ntotal, s)
      else read_rom fuel' file (pos + nread)%nat fsize (ntotal + nread)%nat
             (set_ram (blit (Z.to_nat (pc s)) (map byte_val chunk) (ram s)) s)
  end.

(** How [chip8_init] ends. *)
Inductive init_result : Type :=
| InitDone            (* return 0 *)
| InitOpenFailed      (* fopen failed: return -1 *)
| InitTooBig          (* "This rom is too big to fit in memory!", exit *)
| InitReadFailed.     (* "Failed to read rom into memory!", exit *)

(** [file] is what [fopen] finds under the file name: nothing, or the
    bytes of the rom.  [s] is the global state at the call. *)
Definition chip8_init (file : option (list byte)) (s : chip8) : init_result * chip8 :=
  match file with
  | None => (InitOpenFailed, s)
  | Some image =>
      let s0 := reset in
      let fsize := length image in
      if Z.of_nat fsize >? CHIP8_RAM_CAPACITY - CHIP8_RAM_ENTRYPOINT then (InitTooBig, s0)
      else
        let '(ntotal, s1) := read_rom (S (S fsize)) image 0 fsize 0 s0 in
        if negb (Nat.eqb ntotal fsize) then (InitReadFailed, s1)
        else (InitDone, s1)
  end.

(** ** main: the event loop *)

(** The key symbols that the two switches of [main] name, and any other. *)
Inductive keycode : Type :=
| SDLK_0 | SDLK_1 | SDLK_2 | SDLK_3 | SDLK_4 | SDLK_5 | SDLK_6 | SDLK_7
| SDLK_8 | SDLK_9 | SDLK_a | SDLK_b | SDLK_c | SDLK_d | SDLK_e | SDLK_f
| SDLK_other.

(** What [SDL_PollEvent] delivers, as far as [main] looks at it. *)
Inductive event : Type :=
| SDL_QUIT
| SDL_KEYDOWN (sym : keycode)
| SDL_KEYUP (sym : keycode)
| SDL_other.

(** The entry of [keys] that the case label of a key symbol assigns; the
    two switches, for key down and key up, have the same labels and the
    same indices. *)
Definition key_slot (sym : keycode) : option Z :=
  match sym with
  | SDLK_0 => Some 0x0 | SDLK_1 => Some 0x1 | SDLK_2 => Some 0x2 | SDLK_3 => Some 0x3
  | SDLK_4 => Some 0x4 | SDLK_5 => Some 0x5 | SDLK_6 => Some 0x6 | SDLK_7 => Some 0x7
  | SDLK_8 => Some 0x8 | SDLK_9 => Some 0x9 | SDLK_a => Some 0xa | SDLK_b => Some 0xd
  | SDLK_c => Some 0xc | SDLK_d => Some 0xd | SDLK_e => Some 0xe | SDLK_f => Some 0xf
  | SDLK_other => None
  end.

(** [keys[slot] = x] for the slot of the symbol, nothing for other keys. *)
Definition set_key (keys : list Z) (sym : keycode) (x : Z) : list Z :=
  match key_slot sym with
  | Some i => put keys i x
  | None => keys
  end.

(** [while (SDL_PollEvent (&event))] over the events that are queued:
    [SDL_QUIT] clears [running] and breaks out of the loop, leaving the
    rest of the queue.  The result is [running] and the keys. *)
Fixpoint poll_events (events : list event) (keys : list Z) : bool * list Z :=
  match events with
  | [] => (true, keys)
  | SDL_QUIT :: _ => (false, keys)
  | SDL_KEYDOWN sym :: rest => poll_events rest (set_key keys sym 1)
  | SDL_KEYUP sym :: rest => poll_events rest (set_key keys sym 0)
  | SDL_other :: rest => poll_events rest keys
  end.

(** [while (running)]: every turn polls the events of its frame, executes
    one instruction and draws; [running] is tested after that.  [frames]
    gives the queued events and the random value of each frame; when it is
    used up the loop is still running and the result is the state so far.
    The calls to SDL and OpenGL do not touch [chip8] or [keys]. *)
Fixpoint main_loop (frames : list (list event * Z)) (keys : list Z) (s : chip8)
  : outcome (list Z * chip8) :=
  match frames with
  | [] => Ok (keys, s)
  | (events, rnd) :: rest =>
      let '(running, keys') := poll_events events keys in
      s' <- chip8_execute_instruction keys' rnd s ;;
      if running then main_loop rest keys' s' else Ok (keys', s')
  end.

(** ** Opcodes with semantics in the switch *)

(** The case labels of [chip8_execute_instruction] that neither leave
    through [unimplemented_instruction] nor fall out of an inner switch. *)
Definition implemented (opcode : Z) : bool :=
  let f := op_family opcode in
  let nn := op_nn opcode in
  if f =? 0x0000 then (nn =? 0xe0) || (nn =? 0xee)
  else if f =? 0x8000 then op_n opcode =? 0
  else if f =? 0xe000 then (nn =? 0x9e) || (nn =? 0xa1)
  else if f =? 0xf000 then
    (nn =? 0x07) || (nn =? 0x0a) || (nn =? 0x15) || (nn =? 0x1e)
    || (nn =? 0x29) || (nn =? 0x33) || (nn =? 0x55) || (nn =? 0x65)
  else negb ((f =? 0x5000) || (f =? 0xb000)).

(** The opcodes fetched, cycle by cycle, along a run. *)
Fixpoint fetched (inputs : list (list Z * Z)) (s : chip8) : list (outcome Z) :=
  match inputs with
  | [] => []
  | (keys, rnd) :: rest =>
      chip8_current_opcode s ::
      match chip8_execute_instruction keys rnd s with
      | Ok s' => fetched rest s'
      | _ => []
      end
  end.

Definition all_implemented (l : list (outcome Z)) : bool :=
  forallb (fun o => match o with Ok opcode => implemented opcode | _ => false end) l.

(** ** Well-formed states: the sizes and ranges the C types give *)

Definition is_u8 (z : Z) : Prop := 0 <= z < 0x100.

Definition display_shape (d : list (list Z)) : Prop :=
  length d = Z.to_nat CHIP8_DISPLAY_HEIGHT /\
  Forall (fun row => length row = Z.to_nat CHIP8_DISPLAY_WIDTH) d.

(** Test inputs *)

Definition byte_of (z : Z) : byte := default x00 (Byte.of_N (Z.to_N z)).

(** The machine after [chip8_init] on a rom with the given bytes. *)
Definition boot (rom : list Z) : chip8 :=
  snd (chip8_init (Some (map byte_of rom)) zeroed).

Definition no_keys : list Z := replicate (Z.to_nat KEYS_COUNT) 0.

(** [n] frames in which no key is down. *)
Definition idle (n : nat) : list (list Z * Z) := replicate n (no_keys, 0).

(** * Vocabulary of the properties *)

(** ** Dispatch *)

(** The instruction cycle once the opcode and its family are known. *)
Ltac dispatch Hfetch Hfamily :=
  unfold chip8_execute_instruction; rewrite Hfetch; cbn [bind];
  rewrite Hfamily; cbv beta iota zeta delta [Z.eqb Pos.eqb].

(** A [case] label that the value is known to differ from. *)
Ltac neq_case H := rewrite (proj2 (Z.eqb_neq _ _) H).

(** Both sides of the next [case] label in a cycle that completed. *)
Ltac case_eqb :=
  match goal with
  | H : context [if ?a =? ?b then _ else _] |- _ =>
      let E := fresh "E" in
      destruct (Z.eqb_spec a b) as [E | E]
  end.

(** An opcode of an implemented family whose sub-opcode has no case label
    falls out of the inner switch. *)
Definition falls_through (opcode : Z) : Prop :=
  (op_family opcode = 0x0000 /\ op_nn opcode <> 0xe0 /\ op_nn opcode <> 0xee)
  \/ (op_family opcode = 0x8000 /\
      (0x8 <= op_n opcode <= 0xd \/ op_n opcode = 0xf))
  \/ (op_family opcode = 0xe000 /\ op_nn opcode <> 0x9e /\ op_nn opcode <> 0xa1)
  \/ (op_family opcode = 0xf000 /\
      op_nn opcode <> 0x07 /\ op_nn opcode <> 0x0a /\ op_nn opcode <> 0x15 /\
      op_nn opcode <> 0x18 /\ op_nn opcode <> 0x1e /\ op_nn opcode <> 0x29 /\
      op_nn opcode <> 0x33 /\ op_nn opcode <> 0x55 /\ op_nn opcode <> 0x65).

(** The opcodes for which the switch calls [unimplemented_instruction]. *)
Definition stubbed (opcode : Z) : Prop :=
  op_family opcode = 0x5000 \/ op_family opcode = 0xb000
  \/ (op_family opcode = 0x8000 /\
      (1 <= op_n opcode <= 7 \/ op_n opcode = 0xe))
  \/ (op_family opcode = 0xf000 /\ op_nn opcode = 0x18).

(** ** Control state *)

(** [s'] has the program counter, the stack pointer and the stack of [s]. *)
Definition same_control (s s' : chip8) : Prop :=
  pc s' = pc s /\ sp s' = sp s /\ stack s' = stack s.

(** The four ways in which a completed cycle moves the control state. *)
Inductive control_step (s : chip8) (opcode : Z) (s' : chip8) : Prop :=
| ControlJump :
    op_family opcode = 0x1000 ->
    pc s' = op_nnn opcode -> sp s' = sp s -> stack s' = stack s ->
    control_step s opcode s'
| ControlCall :
    op_family opcode = 0x2000 ->
    0 <= sp s < CHIP8_STACK_CAPACITY ->
    pc s' = op_nnn opcode -> sp s' = u8 (sp s + 1) ->
    stack s' = put (stack s) (sp s) (u16 (pc s)) ->
    control_step s opcode s'
| ControlReturn :
    op_family opcode = 0x0000 -> op_nn opcode = 0xee ->
    0 <= u8 (sp s - 1) < CHIP8_STACK_CAPACITY ->
    pc s' = u16 (get (stack s) (u8 (sp s - 1)) + 2) -> sp s' = u8 (sp s - 1) ->
    stack s' = stack s ->
    control_step s opcode s'
| ControlNext :
    op_family opcode <> 0x1000 -> op_family opcode <> 0x2000 ->
    (pc s' = pc s \/ pc s' = u16 (pc s + 2) \/ pc s' = u16 (pc s + 4)) ->
    sp s' = sp s -> stack s' = stack s ->
    control_step s opcode s'.

(** The program counter is at most [4098], the stack pointer at most [16],
    and the stack holds addresses at which a fetch completed. *)
Definition control_inv (s : chip8) : Prop :=
  0 <= pc s <= 0x1002 /\
  0 <= sp s <= CHIP8_STACK_CAPACITY /\
  length (stack s) = Z.to_nat CHIP8_STACK_CAPACITY /\
  Forall (fun a => 0 <= a <= 0xffe) (stack s).

(** ** Sprites *)

(** Bit [j] of a sprite row, counted from the left: the test of the inner
    loop of [chip8_sprite_draw]. *)
Definition sprite_bit (row j : Z) : bool := negb (Z.land row (Z.shiftr 0x80 j) =? 0).

(** Row [i] of the sprite at [I]. *)
Definition sprite_row (s : chip8) (i : Z) : Z := get (ram s) (I s + i).

(** The value the code stores in a cell that held [d], for the sprite
    row [row]. *)
Definition blend (d row : Z) : Z := u32 (u32 (Z.lxor (to_int d) row) * 0xffffffff).

(** What a draw never changes: ram and the index register. *)
Definition same_sprite (s s' : chip8) : Prop := ram s' = ram s /\ I s' = I s.

(** The set bits of the sprite at [I], [n] rows high, drawn at [(x, y)],
    all address cells of the grid. *)
Definition sprite_fits (s : chip8) (x y n : Z) : Prop :=
  forall i j, 0 <= i < n -> 0 <= j < 8 -> sprite_bit (sprite_row s i) j = true ->
              in_grid (y + i) (x + j) = true.

(** No set bit of the sprite addresses the cell [(r, c)]. *)
Definition sprite_misses (s : chip8) (x y n r c : Z) : Prop :=
  forall i j, 0 <= i < n -> 0 <= j < 8 -> sprite_bit (sprite_row s i) j = true ->
              r <> y + i \/ c <> x + j.

(** An access to a cell that the display does not have. *)
Definition outside_grid (a : access) : Prop :=
  match a with
  | DisplayAt r c => in_grid r c = false
  | _ => False
  end.

(** What a draw keeps besides ram and [I]: the size of the register file,
    the shape of the display, and a collision flag that is already set. *)
Definition draw_frame (t t' : chip8) : Prop :=
  same_sprite t t' /\
  length (v t') = length (v t) /\
  (display_shape (display t) -> display_shape (display t')) /\
  (reg t 0xf = 1 -> reg t' 0xf = 1).

(** The state of one cell while a loop goes over the sprite: before the
    turn [k0] that addresses it the cell has its old value [d], after it
    the blend, and the flag is set if [d] was not zero. *)
Definition cell_phase (r c d row k0 k : Z) (t : chip8) : Prop :=
  (k <= k0 -> cell (display t) r c = d) /\
  (k0 < k -> cell (display t) r c = blend d row /\ (d <> 0 -> reg t 0xf = 1)).

(** ** Values of the C types *)

Definition is_u16 (z : Z) : Prop := 0 <= z < 0x10000.
Definition is_u32 (z : Z) : Prop := 0 <= z < 0x100000000.

(** Every component of the state has the size and the range of its C
    type. *)
Record well_formed (s : chip8) : Prop := WellFormed {
  wf_pc : is_u16 (pc s);
  wf_ram_length : length (ram s) = Z.to_nat CHIP8_RAM_CAPACITY;
  wf_ram : Forall is_u8 (ram s);
  wf_v_length : length (v s) = Z.to_nat CHIP8_REGISTER_COUNT;
  wf_v : Forall is_u8 (v s);
  wf_delay : is_u8 (delay s);
  wf_sound : is_u8 (sound s);
  wf_I : is_u16 (I s);
  wf_sp : is_u8 (sp s);
  wf_stack_length : length (stack s) = Z.to_nat CHIP8_STACK_CAPACITY;
  wf_stack : Forall is_u16 (stack s);
  wf_display_shape : display_shape (display s);
  wf_display : Forall (Forall is_u32) (display s)
}.

(** Every key is up (0) or down (1). *)
Definition keys_binary (keys : list Z) : Prop :=
  length keys = Z.to_nat KEYS_COUNT /\ Forall (fun k => k = 0 \/ k = 1) keys.

(** ** Glyphs *)

(** Row [k] of the glyph of the digit [g] in the font table. *)
Definition glyph_row (g k : Z) : Z := get chip8_numbers (5 * g + k).

(** ** What a cycle keeps *)

(** [s'] has the timers of [s], and is well formed if [s] is. *)
Definition kept (s s' : chip8) : Prop :=
  sound s' = sound s /\ delay s' = delay s /\ (well_formed s -> well_formed s').

(** Fx15 *)
Definition sets_delay (opcode : Z) : Prop :=
  op_family opcode = 0xf000 /\ op_nn opcode = 0x15.

(** ** Effects on one component *)

(** [t] differs from [s] in the display at most. *)
Definition only_display (s t : chip8) : Prop :=
  pc t = pc s /\ ram t = ram s /\ v t = v s /\ delay t = delay s /\ sound t = sound s /\
  I t = I s /\ sp t = sp s /\ stack t = stack s.

(** The display after 00E0. *)
Definition blank : list (list Z) :=
  replicate (Z.to_nat CHIP8_DISPLAY_HEIGHT) (replicate (Z.to_nat CHIP8_DISPLAY_WIDTH) 0).

(** [t] differs from [s] in ram at most. *)
Definition only_ram (s t : chip8) : Prop :=
  pc t = pc s /\ v t = v s /\ delay t = delay s /\ sound t = sound s /\
  I t = I s /\ sp t = sp s /\ stack t = stack s /\ display t = display s.

(** [t] differs from [s] in the registers V0..VF at most. *)
Definition only_v (s t : chip8) : Prop :=
  pc t = pc s /\ ram t = ram s /\ delay t = delay s /\ sound t = sound s /\
  I t = I s /\ sp t = sp s /\ stack t = stack s /\ display t = display s.

(** ** States of the examples *)

(** V0 = 7, V1 = 9 and I = 0x300 in front of the rom F155, F165. *)
Definition save_state : chip8 :=
  set_I 0x300 (set_reg 1 9 (set_reg 0 7 (boot [0xf1; 0x55; 0xf1; 0x65]))).

(** V0 and V1 cleared and I back at 0x300. *)
Definition restart (s : chip8) : chip8 := set_I 0x300 (set_reg 1 0 (set_reg 0 0 s)).

(** ** The main loop as a run *)

(** The keys and the random value with which each frame of the main loop
    executes its instruction, up to the frame of [SDL_QUIT] included, and
    the keys at the end. *)
Fixpoint frame_inputs (frames : list (list event * Z)) (keys : list Z)
  : list (list Z * Z) * list Z :=
  match frames with
  | [] => ([], keys)
  | (events, rnd) :: rest =>
      let '(running, keys') := poll_events events keys in
      if running
      then let '(inputs, final) := frame_inputs rest keys' in ((keys', rnd) :: inputs, final)
      else ([(keys', rnd)], keys')
  end.

(** ** Roms of the examples *)

(** V0 = 0x11, V1 = 0, I = 0x100, store V0..V1 at I, jump to 0x100, where
    the two bytes stored are the jump 1100 to itself. *)
Definition low_loop_rom : list Z :=
  [0x60; 0x11; 0x61; 0x00; 0xa1; 0x00; 0xf1; 0x55; 0x11; 0x00].

(** Jump to the last instruction of ram, which is 3000: V0 = 0 holds and
    the program counter goes up by 4. *)
Definition ram_end_rom : list Z :=
  [0x1f; 0xfe] ++ replicate 3580 0 ++ [0x30; 0x00].

(** The call 2200 at address 0x200: a subroutine that calls itself. *)
Definition self_call_rom : list Z := [0x22; 0x00].

(** V0 = 255, I = 0 (the glyph of 0), draw one row at (V0, V0). *)
Definition far_draw_rom : list Z := [0x60; 0xff; 0xa0; 0x00; 0xd0; 0x01].

(** I = 13, where the font has the byte 0x80 (one pixel), and two draws of
    that row at (V0, V1) = (0, 0). *)
Definition dot_twice_rom : list Z := [0xa0; 0x0d; 0xd0; 0x11; 0xd0; 0x11].

(** The rows FF, 81 and 80 are data at 0x220.  FF is drawn at (0, 0), 81
    at (7, 0), then 80 twice at (7, 0). *)
Definition lit_cell_rom : list Z :=
  [0xa2; 0x20; 0xd0; 0x11; 0xa2; 0x21; 0x62; 0x07; 0xd2; 0x11;
   0xa2; 0x22; 0xd2; 0x11; 0xd2; 0x11; 0x12; 0x10]
  ++ replicate 14 0 ++ [0xff; 0x81; 0x80].

(** V0 = 60, then a loop that reads the delay timer into V1 and adds 1 to
    V2; the delay timer is never set. *)
Definition timer_poll_rom : list Z := [0x60; 0x3c; 0xf1; 0x07; 0x72; 0x01; 0x12; 0x02].

(** * Properties *)

(** ** Ranges and bit fields *)

Lemma in_range_true (i n : Z) : in_range i n = true <-> 0 <= i < n.
Proof.
  unfold in_range. rewrite andb_true_iff, Z.leb_le, Z.ltb_lt. tauto.
Qed.

Lemma in_range_false (i n : Z) : in_range i n = false <-> (i < 0 \/ n <= i).
Proof.
  unfold in_range. rewrite andb_false_iff, Z.leb_gt, Z.ltb_ge. tauto.
Qed.

Lemma in_grid_true (r c : Z) :
  in_grid r c = true <-> (0 <= r < CHIP8_DISPLAY_HEIGHT /\ 0 <= c < CHIP8_DISPLAY_WIDTH).
Proof.
  unfold in_grid. rewrite andb_true_iff, !in_range_true. tauto.
Qed.

Lemma land_mask_bounds (a : Z) (n : Z) :
  0 <= n -> 0 <= Z.land a (Z.ones n) < 2 ^ n.
Proof.
  intros Hn. rewrite Z.land_ones by assumption.
  apply Z.mod_pos_bound. apply Z.pow_pos_nonneg; lia.
Qed.

Lemma op_nnn_range (opcode : Z) : 0 <= op_nnn opcode < 0x1000.
Proof. assert (0 <= 12) as H by lia. exact (land_mask_bounds opcode 12 H). Qed.

Lemma op_nn_range (opcode : Z) : 0 <= op_nn opcode < 0x100.
Proof. assert (0 <= 8) as H by lia. exact (land_mask_bounds opcode 8 H). Qed.

Lemma op_n_range (opcode : Z) : 0 <= op_n opcode < 0x10.
Proof. assert (0 <= 4) as H by lia. exact (land_mask_bounds opcode 4 H). Qed.

(** The register index of an opcode is a nibble: [v] is never indexed
    outside its sixteen entries. *)
Lemma op_x_range (opcode : Z) : 0 <= op_x opcode < CHIP8_REGISTER_COUNT.
Proof.
  unfold op_x, CHIP8_REGISTER_COUNT.
  replace (Z.land opcode 0x0f00) with (Z.shiftl (Z.land (Z.shiftr opcode 8) (Z.ones 4)) 8).
  - rewrite Z.shiftr_shiftl_l, Z.sub_diag, Z.shiftl_0_r by lia.
    apply (land_mask_bounds _ 4). lia.
  - rewrite Z.shiftl_land, Z.land_comm.
    apply Z.bits_inj'. intros k Hk.
    rewrite !Z.land_spec.
    destruct (Z.ltb_spec k 8).
    + rewrite !Z.shiftl_spec_low by lia.
      replace (Z.testbit 0x0f00 k) with false; [now rewrite !andb_false_r|].
      assert (k = 0 \/ k = 1 \/ k = 2 \/ k = 3 \/ k = 4 \/ k = 5 \/ k = 6 \/ k = 7)
        as Hc by lia.
      repeat (destruct Hc as [-> | Hc]; [reflexivity |]). now subst.
    + rewrite !Z.shiftl_spec by lia. rewrite Z.shiftr_spec by lia.
      replace (k - 8 + 8) with k by lia.
      rewrite andb_comm. f_equal.
      destruct (Z.ltb_spec k 12).
      * assert (k = 8 \/ k = 9 \/ k = 10 \/ k = 11) as Hc by lia.
        repeat (destruct Hc as [-> | Hc]; [reflexivity |]). now subst.
      * rewrite Z.ones_spec_high by lia.
        change 0x0f00 with (Z.shiftl (Z.ones 4) 8).
        rewrite Z.shiftl_spec by lia. rewrite Z.ones_spec_high by lia. reflexivity.
Qed.

(** Two bytes, the first shifted left by eight and or-ed with the second,
    are the big-endian 16-bit number. *)
Lemma big_endian (hi lo : Z) :
  is_u8 hi -> is_u8 lo -> u16 (Z.lor (Z.shiftl hi 8) lo) = 0x100 * hi + lo.
Proof.
  unfold is_u8, u16. intros Hhi Hlo.
  assert (Z.land (Z.shiftl hi 8) lo = 0) as Hdisj.
  { apply Z.bits_inj'. intros k Hk. rewrite Z.land_spec, Z.bits_0.
    destruct (Z.ltb_spec k 8).
    - now rewrite Z.shiftl_spec_low by lia.
    - rewrite <- (Z.mod_small lo (2 ^ 8)) by lia.
      rewrite Z.mod_pow2_bits_high by lia. apply andb_false_r. }
  pose proof (Z.add_lor_land (Z.shiftl hi 8) lo) as Hadd.
  rewrite Hdisj, Z.add_0_r in Hadd. rewrite Hadd.
  rewrite Z.shiftl_mul_pow2 by lia.
  change (2 ^ 8) with 0x100. rewrite Z.mod_small; lia.
Qed.

(** ** Fetch *)

Lemma ram_load_ok (s : chip8) (i : Z) :
  0 <= i < CHIP8_RAM_CAPACITY -> ram_load s i = Ok (get (ram s) i).
Proof.
  intros Hi. unfold ram_load. now rewrite (proj2 (in_range_true _ _) Hi).
Qed.

Lemma ram_load_undefined (s : chip8) (i : Z) :
  (i < 0 \/ CHIP8_RAM_CAPACITY <= i) -> ram_load s i = Undefined (RamAt i).
Proof.
  intros Hi. unfold ram_load. now rewrite (proj2 (in_range_false _ _) Hi).
Qed.

(** A fetch that completes was at an address with both bytes in ram. *)
Lemma fetch_ok_pc (s : chip8) (opcode : Z) :
  chip8_current_opcode s = Ok opcode -> 0 <= pc s /\ pc s + 1 < CHIP8_RAM_CAPACITY.
Proof.
  unfold chip8_current_opcode, ram_load. intros H.
  destruct (in_range (pc s) CHIP8_RAM_CAPACITY) eqn:E1; [|discriminate].
  destruct (in_range (pc s + 1) CHIP8_RAM_CAPACITY) eqn:E2; [|discriminate].
  apply in_range_true in E1, E2. lia.
Qed.

(** C3, as the code has it: with both bytes inside ram the fetch is the
    big-endian 16-bit combination of [ram[pc]] and [ram[pc+1]]; with
    [pc+1 >= 4096] nothing is checked and no error is reported, the fetch
    indexes [ram] at or above its capacity. *)
Theorem fetch_big_endian_unchecked (s : chip8) (Hpc : 0 <= pc s) :
  (pc s + 1 < CHIP8_RAM_CAPACITY ->
   is_u8 (get (ram s) (pc s)) -> is_u8 (get (ram s) (pc s + 1)) ->
   chip8_current_opcode s = Ok (0x100 * get (ram s) (pc s) + get (ram s) (pc s + 1)))
  /\
  (CHIP8_RAM_CAPACITY <= pc s + 1 ->
   exists i, CHIP8_RAM_CAPACITY <= i /\ (i = pc s \/ i = pc s + 1) /\
             chip8_current_opcode s = Undefined (RamAt i)).
Proof.
  split.
  - intros Hin Hhi Hlo. unfold chip8_current_opcode.
    rewrite !ram_load_ok by lia. simpl. f_equal. now apply big_endian.
  - intros Hout. unfold chip8_current_opcode.
    destruct (Z.ltb_spec (pc s) CHIP8_RAM_CAPACITY) as [Hlt | Hge].
    + exists (pc s + 1). rewrite ram_load_ok by lia. simpl.
      rewrite ram_load_undefined by lia. auto.
    + exists (pc s). rewrite ram_load_undefined by lia. auto.
Qed.

Lemma fetch_big_endian_unchecked_witness :
  0 <= pc (boot [0xa2; 0xf0]) /\
  chip8_current_opcode (boot [0xa2; 0xf0]) = Ok 0xa2f0.
Proof.
  split; [vm_compute; discriminate |].
  refine (proj1 (fetch_big_endian_unchecked (boot [0xa2; 0xf0]) _) _ _ _);
    vm_compute; intuition discriminate.
Defined.

(** C3 as stated fails: after the jump 1FFF the program counter is 4095
    and the fetch does not stop with an error, it reads [ram[4096]]. *)
Lemma fetch_at_4095_reads_past_ram :
  (s <- run (idle 1) (boot [0x1f; 0xff]) ;; Ok (pc s)) = Ok 4095 /\
  (s <- run (idle 1) (boot [0x1f; 0xff]) ;; chip8_current_opcode s)
  = Undefined (RamAt 0x1000).
Proof. split; vm_compute; reflexivity. Qed.

(** ** Dispatch *)

(** C4, what the code does with an opcode that has no case label in an
    inner switch: the cycle completes and the machine, program counter
    included, is exactly as before.  Nothing is reported. *)
Theorem unlisted_opcode_changes_nothing (keys : list Z) (rnd : Z) (s : chip8) (opcode : Z) :
  chip8_current_opcode s = Ok opcode ->
  falls_through opcode ->
  chip8_execute_instruction keys rnd s = Ok s.
Proof.
  intros Hfetch [(Hf & H1 & H2) | [(Hf & Hn) | [(Hf & H1 & H2) | (Hf & Hnn)]]];
    dispatch Hfetch Hf.
  - unfold exec_0. neq_case H1. now neq_case H2.
  - unfold exec_8.
    destruct (Z.eqb_spec (op_n opcode) 0x0) as [E | _]; [lia |].
    destruct (Z.eqb_spec (op_n opcode) 0x1) as [E | _]; [lia |].
    destruct (Z.eqb_spec (op_n opcode) 0x2) as [E | _]; [lia |].
    destruct (Z.eqb_spec (op_n opcode) 0x3) as [E | _]; [lia |].
    destruct (Z.eqb_spec (op_n opcode) 0x4) as [E | _]; [lia |].
    destruct (Z.eqb_spec (op_n opcode) 0x5) as [E | _]; [lia |].
    destruct (Z.eqb_spec (op_n opcode) 0x6) as [E | _]; [lia |].
    destruct (Z.eqb_spec (op_n opcode) 0x7) as [E | _]; [lia |].
    destruct (Z.eqb_spec (op_n opcode) 0xe) as [E | _]; [lia |].
    reflexivity.
  - unfold exec_e. neq_case H1. now neq_case H2.
  - unfold exec_f. destruct Hnn as (H1 & H2 & H3 & H4 & H5 & H6 & H7 & H8 & H9).
    cbv zeta. neq_case H1. neq_case H2. neq_case H3. neq_case H4. neq_case H5.
    neq_case H6. neq_case H7. neq_case H8. now neq_case H9.
Qed.

Lemma unlisted_opcode_changes_nothing_witness :
  chip8_current_opcode (boot []) = Ok 0x0000 /\ falls_through 0x0000 /\
  chip8_execute_instruction no_keys 0 (boot []) = Ok (boot []).
Proof.
  assert (falls_through 0x0000) as Hft.
  { left. vm_compute. repeat split; discriminate. }
  split; [reflexivity |]. split; [exact Hft |].
  exact (unlisted_opcode_changes_nothing no_keys 0 (boot []) 0x0000 eq_refl Hft).
Defined.

(** The stubbed opcodes do stop the run, with the opcode. *)
Lemma stubbed_opcode_exits (keys : list Z) (rnd : Z) (s : chip8) (opcode : Z) :
  chip8_current_opcode s = Ok opcode ->
  stubbed opcode ->
  chip8_execute_instruction keys rnd s = Exit opcode.
Proof.
  intros Hfetch [Hf | [Hf | [(Hf & Hn) | (Hf & Hnn)]]]; dispatch Hfetch Hf.
  - reflexivity.
  - reflexivity.
  - unfold exec_8, unimplemented_instruction.
    destruct (Z.eqb_spec (op_n opcode) 0x0) as [E | _]; [lia |].
    assert (op_n opcode = 1 \/ op_n opcode = 2 \/ op_n opcode = 3 \/ op_n opcode = 4 \/
            op_n opcode = 5 \/ op_n opcode = 6 \/ op_n opcode = 7 \/ op_n opcode = 0xe)
      as Hc by lia.
    repeat (destruct Hc as [-> | Hc]; [reflexivity |]). now rewrite Hc.
  - unfold exec_f. cbv zeta. now rewrite Hnn.
Qed.

(** ** Fx0A: the key scan *)

Lemma first_key_none (keys : list Z) (n : nat) (lo : Z) :
  (forall i, lo <= i < lo + Z.of_nat n -> get keys i = 0) ->
  first_key keys n lo = None.
Proof.
  revert lo. induction n as [| n IH]; intros lo Hall; [reflexivity |].
  cbn [first_key]. rewrite Hall by lia. rewrite Z.eqb_refl.
  apply IH. intros i Hi. apply Hall. lia.
Qed.

Lemma first_key_lowest (keys : list Z) (n : nat) (lo k : Z) :
  lo <= k < lo + Z.of_nat n ->
  get keys k <> 0 ->
  (forall i, lo <= i < k -> get keys i = 0) ->
  first_key keys n lo = Some k.
Proof.
  revert lo. induction n as [| n IH]; intros lo Hk Hdown Hbelow; [lia |].
  cbn [first_key]. destruct (Z.eq_dec lo k) as [-> | Hne].
  - now neq_case Hdown.
  - rewrite Hbelow by lia. rewrite Z.eqb_refl.
    apply IH; [lia | assumption |]. intros i Hi. apply Hbelow. lia.
Qed.

Lemma pc_add_pc (k : Z) (s : chip8) : pc (add_pc k s) = u16 (pc s + k).
Proof. reflexivity. Qed.

Lemma reg_add_pc (k : Z) (s : chip8) (x : Z) : reg (add_pc k s) x = reg s x.
Proof. reflexivity. Qed.

Lemma reg_set_reg (x b : Z) (s : chip8) :
  0 <= x < Z.of_nat (length (v s)) -> reg (set_reg x b s) x = u8 b.
Proof.
  intros Hx. unfold reg, set_reg, get, put. cbn [v set_v].
  apply list_lookup_total_insert_eq. lia.
Qed.

Lemma reg_set_reg_other (x y b : Z) (s : chip8) :
  0 <= x -> 0 <= y -> x <> y -> reg (set_reg x b s) y = reg s y.
Proof.
  intros Hx Hy Hne. unfold reg, set_reg, get, put. cbn [v set_v].
  apply list_lookup_total_insert_ne. lia.
Qed.

(** C8: Fx0A with no key down is a cycle that changes nothing; with key 5
    down, and no other, it stores 5 in V[x] and moves pc on by 2. *)
Theorem wait_key_released_or_five (keys : list Z) (rnd : Z) (s : chip8) (opcode : Z) :
  chip8_current_opcode s = Ok opcode ->
  op_family opcode = 0xf000 -> op_nn opcode = 0x0a ->
  length (v s) = Z.to_nat CHIP8_REGISTER_COUNT ->
  ((forall i, 0 <= i < KEYS_COUNT -> get keys i = 0) ->
   chip8_execute_instruction keys rnd s = Ok s)
  /\
  (get keys 5 <> 0 -> (forall i, 0 <= i < KEYS_COUNT -> i <> 5 -> get keys i = 0) ->
   exists s', chip8_execute_instruction keys rnd s = Ok s' /\
     reg s' (op_x opcode) = 5 /\ pc s' = pc s + 2 /\
     (forall r, 0 <= r -> r <> op_x opcode -> reg s' r = reg s r) /\
     ram s' = ram s /\ I s' = I s /\ sp s' = sp s /\ stack s' = stack s /\
     delay s' = delay s /\ sound s' = sound s /\ display s' = display s).
Proof.
  intros Hfetch Hf Hnn Hlen. pose proof (op_x_range opcode) as Hx.
  pose proof (fetch_ok_pc _ _ Hfetch) as Hpc.
  unfold CHIP8_RAM_CAPACITY, CHIP8_REGISTER_COUNT, KEYS_COUNT in *.
  split.
  - intros Hup. dispatch Hfetch Hf. unfold exec_f. cbv zeta. rewrite Hnn.
    cbv beta iota delta [Z.eqb Pos.eqb].
    now rewrite first_key_none.
  - intros Hdown Hothers. dispatch Hfetch Hf. unfold exec_f. cbv zeta. rewrite Hnn.
    cbv beta iota delta [Z.eqb Pos.eqb].
    rewrite (first_key_lowest keys _ 0 5); unfold KEYS_COUNT;
      [| lia | assumption | intros i Hi; apply Hothers; lia].
    eexists. split; [reflexivity |].
    split; [| split; [| split]]; [| | | repeat split].
    + rewrite reg_add_pc, reg_set_reg by lia. reflexivity.
    + rewrite pc_add_pc. cbn [pc set_reg set_v]. unfold u16. rewrite Z.mod_small; lia.
    + intros r Hr Hne. rewrite reg_add_pc. apply reg_set_reg_other; lia.
Qed.

Lemma wait_key_released_or_five_witness :
  chip8_execute_instruction no_keys 0 (boot [0xf3; 0x0a]) = Ok (boot [0xf3; 0x0a]) /\
  exists s', chip8_execute_instruction (<[5%nat := 1]> no_keys) 0 (boot [0xf3; 0x0a]) = Ok s'
             /\ reg s' 3 = 5 /\ pc s' = 0x202.
Proof.
  pose proof (wait_key_released_or_five no_keys 0 (boot [0xf3; 0x0a]) 0xf30a
                eq_refl eq_refl eq_refl eq_refl) as [Hup _].
  pose proof (wait_key_released_or_five (<[5%nat := 1]> no_keys) 0 (boot [0xf3; 0x0a]) 0xf30a
                eq_refl eq_refl eq_refl eq_refl) as [_ Hdown].
  split.
  - apply Hup. intros i Hi.
    assert (i = 0 \/ i = 1 \/ i = 2 \/ i = 3 \/ i = 4 \/ i = 5 \/ i = 6 \/ i = 7 \/
            i = 8 \/ i = 9 \/ i = 10 \/ i = 11 \/ i = 12 \/ i = 13 \/ i = 14 \/ i = 15)
      as Hc by (unfold KEYS_COUNT in Hi; lia).
    repeat (destruct Hc as [-> | Hc]; [reflexivity |]). now subst.
  - destruct Hdown as (s' & Hs' & Hreg & Hpc & _).
    + vm_compute. discriminate.
    + intros i Hi Hne.
      assert (i = 0 \/ i = 1 \/ i = 2 \/ i = 3 \/ i = 4 \/ i = 6 \/ i = 7 \/
              i = 8 \/ i = 9 \/ i = 10 \/ i = 11 \/ i = 12 \/ i = 13 \/ i = 14 \/ i = 15)
        as Hc by (unfold KEYS_COUNT in Hi; lia).
      repeat (destruct Hc as [-> | Hc]; [reflexivity |]). now subst.
    + exists s'. auto.
Defined.

(** C10: with several keys down Fx0A stores the lowest index of a key that
    is down; the scan goes up from 0 and stops at the first one. *)
Theorem wait_key_takes_lowest (keys : list Z) (rnd : Z) (s : chip8) (opcode k : Z) :
  chip8_current_opcode s = Ok opcode ->
  op_family opcode = 0xf000 -> op_nn opcode = 0x0a ->
  length (v s) = Z.to_nat CHIP8_REGISTER_COUNT ->
  0 <= k < KEYS_COUNT -> get keys k <> 0 ->
  (forall i, 0 <= i < k -> get keys i = 0) ->
  chip8_execute_instruction keys rnd s = Ok (add_pc 2 (set_reg (op_x opcode) k s))
  /\ reg (add_pc 2 (set_reg (op_x opcode) k s)) (op_x opcode) = k.
Proof.
  intros Hfetch Hf Hnn Hlen Hk Hdown Hbelow. pose proof (op_x_range opcode) as Hx.
  unfold CHIP8_REGISTER_COUNT, KEYS_COUNT in *.
  split.
  - dispatch Hfetch Hf. unfold exec_f. cbv zeta. rewrite Hnn.
    cbv beta iota delta [Z.eqb Pos.eqb].
    rewrite (first_key_lowest keys _ 0 k); unfold KEYS_COUNT; auto; lia.
  - rewrite reg_add_pc, reg_set_reg by lia. unfold u8. rewrite Z.mod_small; lia.
Qed.

Lemma wait_key_takes_lowest_witness :
  let keys := <[9%nat := 1]> (<[4%nat := 1]> (<[12%nat := 1]> no_keys)) in
  chip8_execute_instruction keys 0 (boot [0xf3; 0x0a])
  = Ok (add_pc 2 (set_reg 3 4 (boot [0xf3; 0x0a]))).
Proof.
  intros keys.
  refine (proj1 (wait_key_takes_lowest keys 0 (boot [0xf3; 0x0a]) 0xf30a 4
                   eq_refl eq_refl eq_refl eq_refl _ _ _)).
  - vm_compute. intuition discriminate.
  - vm_compute. discriminate.
  - intros i Hi. assert (i = 0 \/ i = 1 \/ i = 2 \/ i = 3) as Hc by lia.
    repeat (destruct Hc as [-> | Hc]; [reflexivity |]). now subst.
Defined.

(** ** Call and return *)

Lemma u16_small (z : Z) : 0 <= z < 0x10000 -> u16 z = z.
Proof. intros H. unfold u16. now apply Z.mod_small. Qed.

Lemma u8_small (z : Z) : 0 <= z < 0x100 -> u8 z = z.
Proof. intros H. unfold u8. now apply Z.mod_small. Qed.

Lemma get_put (l : list Z) (i x : Z) :
  0 <= i < Z.of_nat (length l) -> get (put l i x) i = x.
Proof.
  intros Hi. unfold get, put. apply list_lookup_total_insert_eq. lia.
Qed.

Lemma get_put_other (l : list Z) (i j x : Z) :
  0 <= i -> 0 <= j -> i <> j -> get (put l i x) j = get l j.
Proof.
  intros Hi Hj Hne. unfold get, put. apply list_lookup_total_insert_ne. lia.
Qed.

(** 2nnn below a full stack: the frame written and the new registers. *)
Lemma call_step (keys : list Z) (rnd : Z) (s : chip8) (opcode : Z) :
  chip8_current_opcode s = Ok opcode -> op_family opcode = 0x2000 ->
  0 <= sp s < CHIP8_STACK_CAPACITY ->
  chip8_execute_instruction keys rnd s
  = Ok (set_pc (op_nnn opcode)
          (set_sp (sp s + 1) (set_stack (put (stack s) (sp s) (pc s)) s))).
Proof.
  intros Hfetch Hf Hsp. pose proof (fetch_ok_pc _ _ Hfetch) as Hpc.
  dispatch Hfetch Hf. unfold exec_call, stack_store.
  rewrite (proj2 (in_range_true _ _) Hsp). cbn [bind sp set_stack].
  unfold CHIP8_STACK_CAPACITY, CHIP8_RAM_CAPACITY in *.
  rewrite !u16_small, u8_small by lia. reflexivity.
Qed.

(** 00EE: the stack is indexed at [sp - 1], as an 8-bit value. *)
Lemma return_step (keys : list Z) (rnd : Z) (s : chip8) (opcode : Z) :
  chip8_current_opcode s = Ok opcode ->
  op_family opcode = 0x0000 -> op_nn opcode = 0xee ->
  chip8_execute_instruction keys rnd s
  = if in_range (u8 (sp s - 1)) CHIP8_STACK_CAPACITY
    then Ok (set_pc (u16 (get (stack s) (u8 (sp s - 1)) + 2)) (set_sp (u8 (sp s - 1)) s))
    else Undefined (StackAt (u8 (sp s - 1))).
Proof.
  intros Hfetch Hf Hnn. dispatch Hfetch Hf. unfold exec_0. rewrite Hnn.
  cbv beta iota delta [Z.eqb Pos.eqb]. unfold stack_load. cbn [sp set_sp stack].
  now destruct (in_range (u8 (sp s - 1)) CHIP8_STACK_CAPACITY).
Qed.

(** C7: a call below a full stack, then a return in any later state whose
    stack pointer and frame are those the call left, comes back to the
    instruction after the call with the stack pointer of before the call. *)
Theorem call_return_round_trip
  (keys : list Z) (rnd : Z) (keys' : list Z) (rnd' : Z) (s : chip8) (opcode : Z) :
  0 <= sp s < CHIP8_STACK_CAPACITY ->
  length (stack s) = Z.to_nat CHIP8_STACK_CAPACITY ->
  chip8_current_opcode s = Ok opcode -> op_family opcode = 0x2000 ->
  exists s1,
    chip8_execute_instruction keys rnd s = Ok s1 /\
    pc s1 = op_nnn opcode /\ sp s1 = sp s + 1 /\
    forall t opcode',
      sp t = sp s1 -> get (stack t) (sp s) = get (stack s1) (sp s) ->
      chip8_current_opcode t = Ok opcode' ->
      op_family opcode' = 0x0000 -> op_nn opcode' = 0xee ->
      exists s2,
        chip8_execute_instruction keys' rnd' t = Ok s2 /\
        pc s2 = pc s + 2 /\ sp s2 = sp s.
Proof.
  intros Hsp Hlen Hfetch Hf. pose proof (fetch_ok_pc _ _ Hfetch) as Hpc.
  eexists. split; [exact (call_step keys rnd s opcode Hfetch Hf Hsp) |].
  cbn [pc sp stack set_pc set_sp set_stack].
  unfold CHIP8_STACK_CAPACITY, CHIP8_RAM_CAPACITY in *.
  repeat split.
  intros t opcode' Hspt Hframe Hfetch' Hf' Hnn'.
  rewrite get_put in Hframe by lia.
  rewrite (return_step keys' rnd' t opcode' Hfetch' Hf' Hnn').
  rewrite Hspt. replace (sp s + 1 - 1) with (sp s) by lia.
  rewrite u8_small by lia.
  rewrite (proj2 (in_range_true _ _)) by (unfold CHIP8_STACK_CAPACITY; lia).
  eexists. split; [reflexivity |]. cbn [pc sp set_pc set_sp].
  rewrite Hframe, u16_small by lia. auto.
Qed.

Lemma call_return_round_trip_witness :
  let s := boot [0x22; 0x06; 0x00; 0x00; 0x00; 0x00; 0x00; 0xee] in
  exists s1 s2,
    chip8_execute_instruction no_keys 0 s = Ok s1 /\
    chip8_execute_instruction no_keys 0 s1 = Ok s2 /\
    pc s1 = 0x206 /\ sp s1 = 1 /\ pc s2 = 0x202 /\ sp s2 = 0.
Proof.
  intros s.
  destruct (call_return_round_trip no_keys 0 no_keys 0 s 0x2206)
    as (s1 & Hcall & Hpc1 & Hsp1 & Hret).
  - vm_compute. intuition discriminate.
  - reflexivity.
  - reflexivity.
  - reflexivity.
  - destruct (Hret s1 0x00ee) as (s2 & Hstep & Hpc2 & Hsp2).
    + reflexivity.
    + reflexivity.
    + assert (Ok s1 = chip8_execute_instruction no_keys 0 s) as E by now rewrite Hcall.
      vm_compute in E. injection E as ->. reflexivity.
    + reflexivity.
    + reflexivity.
    + exists s1, s2. repeat split; assumption.
Defined.

(** ** The loader *)

(** The read loop on a file of [fsize] bytes: one turn delivers the whole
    file, the next one nothing. *)
Lemma fread_whole (file : list byte) : fread file 0 (length file) = file.
Proof. unfold fread. rewrite drop_0. apply firstn_all. Qed.

Lemma fread_at_end (file : list byte) (count : nat) : fread file (length file) count = [].
Proof. unfold fread. rewrite drop_all. apply take_nil. Qed.

Lemma read_rom_whole (image : list byte) (fuel : nat) (s : chip8) :
  read_rom (S (S fuel)) image 0 (length image) 0 s
  = (length image,
     match image with
     | [] => s
     | _ => set_ram (blit (Z.to_nat (pc s)) (map byte_val image) (ram s)) s
     end).
Proof.
  destruct image as [| b image]; [reflexivity |].
  set (img := b :: image).
  change (read_rom (S (S fuel)) img 0 (length img) 0 s)
    with (let chunk := fread img 0 (length img) in
          if Nat.eqb (length chunk) 0 then (0%nat, s)
          else read_rom (S fuel) img (0 + length chunk) (length img) (0 + length chunk)
                 (set_ram (blit (Z.to_nat (pc s)) (map byte_val chunk) (ram s)) s)).
  rewrite fread_whole. cbv zeta.
  replace (Nat.eqb (length img) 0) with false by reflexivity.
  rewrite Nat.add_0_l.
  cbn [read_rom]. rewrite fread_at_end. reflexivity.
Qed.

(** The size test of [chip8_init] and what each side of it does. *)
Lemma chip8_init_cases (image : list byte) (s : chip8) :
  chip8_init (Some image) s
  = if Z.of_nat (length image) >? CHIP8_RAM_CAPACITY - CHIP8_RAM_ENTRYPOINT
    then (InitTooBig, reset)
    else (InitDone,
          match image with
          | [] => reset
          | _ => set_ram (blit (Z.to_nat CHIP8_RAM_ENTRYPOINT) (map byte_val image) (ram reset))
                   reset
          end).
Proof.
  unfold chip8_init.
  destruct (Z.of_nat (length image) >? CHIP8_RAM_CAPACITY - CHIP8_RAM_ENTRYPOINT);
    [reflexivity |].
  rewrite read_rom_whole. rewrite Nat.eqb_refl. reflexivity.
Qed.

(** C9: 3584 bytes are accepted, 3585 are refused; a refused load leaves
    the state of the reset, in which ram holds the font and zeros: the test
    comes before the copy and no byte of the image is in memory. *)
Theorem load_size_limit (image : list byte) (s : chip8) :
  (length image = 3584%nat ->
   exists s', chip8_init (Some image) s = (InitDone, s') /\
              drop (Z.to_nat CHIP8_RAM_ENTRYPOINT) (ram s') = map byte_val image)
  /\ (length image = 3585%nat -> chip8_init (Some image) s = (InitTooBig, reset))
  /\ (CHIP8_RAM_CAPACITY - CHIP8_RAM_ENTRYPOINT < Z.of_nat (length image) ->
      chip8_init (Some image) s = (InitTooBig, reset) /\
      drop (Z.to_nat CHIP8_RAM_ENTRYPOINT) (ram reset)
      = replicate (Z.to_nat (CHIP8_RAM_CAPACITY - CHIP8_RAM_ENTRYPOINT)) 0).
Proof.
  rewrite chip8_init_cases.
  split; [| split].
  - intros Hlen. rewrite Hlen.
    replace (Z.of_nat 3584 >? CHIP8_RAM_CAPACITY - CHIP8_RAM_ENTRYPOINT) with false
      by reflexivity.
    eexists. split; [reflexivity |].
    destruct image as [| b image]; [discriminate |].
    set (img := b :: image) in *. cbn [ram set_ram]. unfold blit.
    rewrite drop_app_length'.
    + rewrite length_map, Hlen. rewrite (drop_ge (ram reset)) by (vm_compute; lia).
      apply app_nil_r.
    + rewrite length_take. vm_compute. reflexivity.
  - intros Hlen. rewrite Hlen. reflexivity.
  - intros Hlen.
    rewrite (proj2 (Z.gtb_lt _ _)) by lia.
    split; reflexivity.
Qed.

Lemma load_size_limit_witness :
  exists s', chip8_init (Some (replicate 3584 x01)) zeroed = (InitDone, s') /\
             drop (Z.to_nat CHIP8_RAM_ENTRYPOINT) (ram s') = replicate 3584 1.
Proof.
  destruct (proj1 (load_size_limit (replicate 3584 x01) zeroed)) as (s' & Hinit & Hram).
  - apply length_replicate.
  - exists s'. split; [exact Hinit |]. rewrite Hram. vm_compute. reflexivity.
Defined.

(** ** Control state along a cycle *)

(** A sequence that completes: both parts completed. *)
Lemma bind_ok {A B : Type} (m : outcome A) (f : A -> outcome B) (b : B) :
  bind m f = Ok b -> exists a, m = Ok a /\ f a = Ok b.
Proof.
  destruct m as [a | o | a]; cbn [bind]; intros H.
  - now exists a.
  - discriminate H.
  - discriminate H.
Qed.

(** Loops keep what every turn keeps. *)
Lemma for_loop_invariant {A : Type} (P : A -> Prop) (body : Z -> A -> outcome A)
  (n : nat) (i : Z) (a a' : A) :
  (forall k x x', i <= k < i + Z.of_nat n -> P x -> body k x = Ok x' -> P x') ->
  P a -> for_loop n i body a = Ok a' -> P a'.
Proof.
  revert i a. induction n as [| n IH]; intros i a Hbody Ha Hrun.
  - cbn in Hrun. now injection Hrun as <-.
  - cbn [for_loop] in Hrun. destruct (body i a) as [x | |] eqn:Hx; try discriminate.
    cbn [bind] in Hrun. apply (IH (i + 1) x).
    + intros k y y' Hk. apply Hbody. lia.
    + apply (Hbody i a x); [lia | assumption | assumption].
    + assumption.
Qed.

Lemma same_control_refl (s : chip8) : same_control s s.
Proof. now unfold same_control. Qed.

Lemma same_control_trans (s t u : chip8) :
  same_control s t -> same_control t u -> same_control s u.
Proof. unfold same_control. intros (-> & -> & ->) (-> & -> & ->). auto. Qed.

Lemma ram_store_control (i x : Z) (s s' : chip8) :
  ram_store i x s = Ok s' -> same_control s s'.
Proof.
  unfold ram_store. destruct (in_range i CHIP8_RAM_CAPACITY); [| discriminate].
  intros [= <-]. repeat split.
Qed.

Lemma display_store_control (r c x : Z) (s s' : chip8) :
  display_store r c x s = Ok s' -> same_control s s'.
Proof.
  unfold display_store. destruct (in_grid r c); [| discriminate].
  intros [= <-]. repeat split.
Qed.

Lemma draw_pixel_control (x y i row j : Z) (s s' : chip8) :
  draw_pixel x y i row j s = Ok s' -> same_control s s'.
Proof.
  unfold draw_pixel. destruct (Z.land row (Z.shiftr 128 j) =? 0).
  - intros [= <-]. apply same_control_refl.
  - intros H. apply bind_ok in H as (d & _ & H). apply display_store_control in H.
    destruct (d =? 0); exact H.
Qed.

Lemma chip8_sprite_draw_control (x y n : Z) (s s' : chip8) :
  chip8_sprite_draw x y n s = Ok s' -> same_control s s'.
Proof.
  unfold chip8_sprite_draw. apply for_loop_invariant; [| repeat split].
  intros i t t' _ Ht. unfold draw_row. intros H.
  apply bind_ok in H as (row & _ & H). revert H.
  apply for_loop_invariant; [| exact Ht].
  intros j u u' _ Hu Hpix. apply (same_control_trans _ u); [exact Hu |].
  now apply draw_pixel_control in Hpix.
Qed.

Lemma clear_display_control (s s' : chip8) :
  clear_display s = Ok s' -> same_control s s'.
Proof.
  unfold clear_display. apply for_loop_invariant; [| apply same_control_refl].
  intros i t t' _ Ht. apply for_loop_invariant; [| exact Ht].
  intros j u u' _ Hu Hst. apply (same_control_trans _ u); [exact Hu |].
  now apply display_store_control in Hst.
Qed.

Lemma control_next_of (s t s' : chip8) (opcode k : Z) :
  op_family opcode <> 0x1000 -> op_family opcode <> 0x2000 ->
  same_control s t -> (k = 2 \/ k = 4) -> s' = add_pc k t ->
  control_step s opcode s'.
Proof.
  intros H1 H2 (Hpc & Hsp & Hst) Hk ->. apply ControlNext; auto.
  rewrite pc_add_pc, Hpc. destruct Hk as [-> | ->]; auto.
Qed.

Lemma step_control (keys : list Z) (rnd : Z) (s s' : chip8) (opcode : Z) :
  chip8_current_opcode s = Ok opcode ->
  chip8_execute_instruction keys rnd s = Ok s' ->
  control_step s opcode s'.
Proof.
  intros Hfetch Hstep. unfold chip8_execute_instruction in Hstep.
  rewrite Hfetch in Hstep. cbn [bind] in Hstep. cbv zeta in Hstep.
  assert (forall t k, same_control s t -> (k = 2 \/ k = 4) ->
                      op_family opcode <> 0x1000 -> op_family opcode <> 0x2000 ->
                      Ok (add_pc k t) = Ok s' -> control_step s opcode s') as Hnext.
  { intros t k Ht Hk H1 H2 [= <-]. now apply (control_next_of s t _ opcode k). }
  assert (op_family opcode <> 0x1000 -> op_family opcode <> 0x2000 ->
          Ok s = Ok s' -> control_step s opcode s') as Hstay.
  { intros H1 H2 [= <-]. apply ControlNext; auto. }
  pose proof (same_control_refl s) as Hrefl.
  case_eqb.
  { (* family 0 *)
    unfold exec_0 in Hstep. case_eqb.
    - apply bind_ok in Hstep as (t & Hclr & Hstep).
      apply clear_display_control in Hclr.
      apply (Hnext t 2); auto; rewrite E; discriminate.
    - case_eqb.
      + unfold stack_load in Hstep. cbn [sp set_sp stack] in Hstep.
        destruct (in_range (u8 (sp s - 1)) CHIP8_STACK_CAPACITY) eqn:Hin;
          [| discriminate Hstep].
        cbn [bind] in Hstep. injection Hstep as <-.
        apply in_range_true in Hin. now apply ControlReturn.
      + apply Hstay; auto; rewrite E; discriminate. }
  case_eqb.
  { injection Hstep as <-. now apply ControlJump. }
  case_eqb.
  { unfold exec_call, stack_store in Hstep.
    destruct (in_range (sp s) CHIP8_STACK_CAPACITY) eqn:Hin; [| discriminate Hstep].
    cbn [bind] in Hstep. injection Hstep as <-.
    apply in_range_true in Hin. now apply ControlCall. }
  case_eqb.
  { unfold skip_if in Hstep. destruct (reg s (op_x opcode) =? op_nn opcode);
      [apply (Hnext s 4) | apply (Hnext s 2)]; auto. }
  case_eqb.
  { unfold skip_if in Hstep. destruct (negb (reg s (op_x opcode) =? op_nn opcode));
      [apply (Hnext s 4) | apply (Hnext s 2)]; auto. }
  case_eqb.
  { discriminate Hstep. }
  case_eqb.
  { apply (Hnext (set_reg (op_x opcode) (op_nn opcode) s) 2); auto. }
  case_eqb.
  { apply (Hnext (set_reg (op_x opcode) (reg s (op_x opcode) + op_nn opcode) s) 2); auto. }
  case_eqb.
  { unfold exec_8 in Hstep. cbv zeta in Hstep. case_eqb.
    - eapply (Hnext _ 2); [| | | | exact Hstep]; auto.
    - destruct (_ || _) in Hstep; [discriminate Hstep |]. now apply Hstay. }
  case_eqb.
  { unfold skip_if in Hstep.
    destruct (negb (reg s (op_x opcode) =? reg s (op_y opcode)));
      [apply (Hnext s 4) | apply (Hnext s 2)]; auto. }
  case_eqb.
  { eapply (Hnext _ 2); [| | | | exact Hstep]; auto. }
  case_eqb.
  { discriminate Hstep. }
  case_eqb.
  { eapply (Hnext _ 2); [| | | | exact Hstep]; auto. }
  case_eqb.
  { apply bind_ok in Hstep as (t & Hdraw & Hstep).
    apply chip8_sprite_draw_control in Hdraw.
    apply (Hnext t 2); auto. }
  case_eqb.
  { unfold exec_e in Hstep. case_eqb; [| case_eqb].
    - apply bind_ok in Hstep as (k & _ & Hstep).
      unfold skip_if in Hstep. destruct (k =? 1); [apply (Hnext s 4) | apply (Hnext s 2)]; auto.
    - apply bind_ok in Hstep as (k & _ & Hstep).
      unfold skip_if in Hstep. destruct (k =? 0); [apply (Hnext s 4) | apply (Hnext s 2)]; auto.
    - now apply Hstay. }
  case_eqb.
  { unfold exec_f in Hstep. cbv zeta in Hstep.
    case_eqb; [eapply (Hnext _ 2); [| | | | exact Hstep]; auto |].
    case_eqb.
    { destruct (first_key keys _ 0) as [k |];
        [eapply (Hnext _ 2); [| | | | exact Hstep]; auto | now apply Hstay]. }
    case_eqb; [eapply (Hnext _ 2); [| | | | exact Hstep]; auto |].
    case_eqb; [discriminate Hstep |].
    case_eqb; [eapply (Hnext _ 2); [| | | | exact Hstep]; auto |].
    case_eqb; [eapply (Hnext _ 2); [| | | | exact Hstep]; auto |].
    case_eqb.
    { apply bind_ok in Hstep as (s1 & H1 & Hstep).
      apply bind_ok in Hstep as (s2 & H2 & Hstep).
      apply bind_ok in Hstep as (s3 & H3 & Hstep).
      apply ram_store_control in H1, H2, H3.
      apply (Hnext s3 2); auto.
      apply (same_control_trans _ s1); auto. apply (same_control_trans _ s2); auto. }
    case_eqb.
    { apply bind_ok in Hstep as (s1 & Hloop & Hstep).
      assert (same_control s s1) as Hs1.
      { revert Hloop. apply for_loop_invariant; [| exact Hrefl].
        intros k t t' _ Ht Hst. apply (same_control_trans _ t); [exact Ht |].
        now apply ram_store_control in Hst. }
      apply (Hnext (set_I (u16 (I s1 + (op_x opcode + 1))) s1) 2); auto. }
    case_eqb.
    { apply bind_ok in Hstep as (s1 & Hloop & Hstep).
      assert (same_control s s1) as Hs1.
      { revert Hloop. apply for_loop_invariant; [| exact Hrefl].
        intros k t t' _ Ht Hst. apply (same_control_trans _ t); [exact Ht |].
        apply bind_ok in Hst as (b & _ & Hst). now injection Hst as <-. }
      apply (Hnext (set_I (u16 (I s1 + (op_x opcode + 1))) s1) 2); auto. }
    now apply Hstay. }
  now apply Hstay.
Qed.

(** ** What every run keeps of the control state *)

Lemma step_fetch (keys : list Z) (rnd : Z) (s s' : chip8) :
  chip8_execute_instruction keys rnd s = Ok s' ->
  exists opcode, chip8_current_opcode s = Ok opcode.
Proof.
  unfold chip8_execute_instruction. intros H.
  apply bind_ok in H as (opcode & Hfetch & _). now exists opcode.
Qed.

Lemma step_control_inv (keys : list Z) (rnd : Z) (s s' : chip8) :
  control_inv s -> chip8_execute_instruction keys rnd s = Ok s' -> control_inv s'.
Proof.
  intros (Hpc & Hsp & Hlen & Hstack) Hstep.
  destruct (step_fetch _ _ _ _ Hstep) as (opcode & Hfetch).
  pose proof (fetch_ok_pc _ _ Hfetch) as Hfpc.
  pose proof (op_nnn_range opcode) as Hnnn.
  unfold control_inv, CHIP8_STACK_CAPACITY, CHIP8_RAM_CAPACITY in *.
  destruct (step_control keys rnd s s' opcode Hfetch Hstep)
    as [_ Hpc' Hsp' Hst' | _ Hin Hpc' Hsp' Hst' | _ _ Hin Hpc' Hsp' Hst' | _ _ Hpc' Hsp' Hst'].
  - rewrite Hpc', Hsp', Hst'. repeat split; auto; lia.
  - rewrite Hpc', Hsp', Hst'. unfold CHIP8_STACK_CAPACITY in Hin.
    rewrite u8_small, u16_small by lia. unfold put.
    rewrite length_insert. repeat split; try lia.
    apply Forall_insert; [assumption | lia].
  - rewrite Hpc', Hsp', Hst'. unfold CHIP8_STACK_CAPACITY in Hin.
    assert (0 <= get (stack s) (u8 (sp s - 1)) <= 0xffe) as Hframe.
    { unfold get. apply (Forall_lookup_total_1 (fun a => 0 <= a <= 0xffe)); [assumption | lia]. }
    rewrite u16_small by lia. repeat split; auto; lia.
  - rewrite Hsp', Hst'.
    assert (0 <= pc s' <= 0x1002) as Hb
      by (destruct Hpc' as [-> | [-> | ->]]; try rewrite u16_small by lia; lia).
    repeat split; auto; lia.
Qed.

Lemma run_control_inv (inputs : list (list Z * Z)) (s s' : chip8) :
  control_inv s -> run inputs s = Ok s' -> control_inv s'.
Proof.
  revert s. induction inputs as [| [keys rnd] rest IH]; intros s Hinv Hrun.
  - cbn in Hrun. now injection Hrun as <-.
  - cbn [run] in Hrun. apply bind_ok in Hrun as (t & Hstep & Hrun).
    apply (IH t); [| exact Hrun]. now apply (step_control_inv keys rnd s).
Qed.

Lemma reset_control_inv : control_inv reset.
Proof.
  unfold control_inv. cbn. repeat split; try lia; try discriminate.
  repeat constructor; lia.
Qed.

Lemma chip8_init_control_inv (image : list byte) (st s0 : chip8) :
  chip8_init (Some image) st = (InitDone, s0) -> control_inv s0.
Proof.
  rewrite chip8_init_cases.
  destruct (Z.of_nat (length image) >? CHIP8_RAM_CAPACITY - CHIP8_RAM_ENTRYPOINT);
    [discriminate |].
  intros [= <-]. destruct image; exact reset_control_inv.
Qed.

(** C2, as the code has it: whatever the rom, after any number of cycles
    that complete the program counter is between 0 and 4098.  Nothing keeps
    it at or above 512 (1nnn and 2nnn take any 12-bit target) or below 4096
    (the advance by 2 or 4 is not checked). *)
Theorem pc_between_0_and_4098
  (image : list byte) (st s0 : chip8) (inputs : list (list Z * Z)) (s : chip8) :
  chip8_init (Some image) st = (InitDone, s0) ->
  run inputs s0 = Ok s ->
  0 <= pc s <= 0x1002.
Proof.
  intros Hinit Hrun.
  apply (run_control_inv inputs s0 s (chip8_init_control_inv image st s0 Hinit) Hrun).
Qed.

Lemma pc_between_0_and_4098_witness :
  exists s,
    chip8_init (Some (map byte_of ram_end_rom)) zeroed
    = (InitDone, boot ram_end_rom) /\
    run (idle 2) (boot ram_end_rom) = Ok s /\ 0 <= pc s <= 0x1002.
Proof.
  assert (chip8_init (Some (map byte_of ram_end_rom)) zeroed = (InitDone, boot ram_end_rom))
    as Hinit by (vm_compute; reflexivity).
  destruct (run (idle 2) (boot ram_end_rom)) as [s | |] eqn:Hrun.
  - exists s. split; [exact Hinit |]. split; [reflexivity |].
    exact (pc_between_0_and_4098 _ _ _ _ _ Hinit Hrun).
  - vm_compute in Hrun. discriminate Hrun.
  - vm_compute in Hrun. discriminate Hrun.
Defined.

(** C2 as stated fails on both sides.  All opcodes fetched are implemented
    ones; the first rom ends in a loop at address 0x100, which it never
    leaves; the second one brings the program counter to 4098. *)
Lemma pc_leaves_512_4096 :
  all_implemented (fetched (idle 9) (boot low_loop_rom)) = true /\
  (s <- run (idle 5) (boot low_loop_rom) ;; Ok (pc s)) = Ok 0x100 /\
  (s <- run (idle 5) (boot low_loop_rom) ;; chip8_execute_instruction no_keys 0 s)
  = run (idle 5) (boot low_loop_rom) /\
  all_implemented (fetched (idle 2) (boot ram_end_rom)) = true /\
  (s <- run (idle 2) (boot ram_end_rom) ;; Ok (pc s)) = Ok 0x1002.
Proof. repeat split; vm_compute; reflexivity. Qed.

(** ** The stack pointer *)

(** 2nnn at any stack pointer: the stack is indexed at [sp], unchecked. *)
Lemma call_step_unchecked (keys : list Z) (rnd : Z) (s : chip8) (opcode : Z) :
  chip8_current_opcode s = Ok opcode -> op_family opcode = 0x2000 ->
  chip8_execute_instruction keys rnd s
  = if in_range (sp s) CHIP8_STACK_CAPACITY
    then Ok (set_pc (op_nnn opcode)
               (set_sp (u8 (sp s + 1)) (set_stack (put (stack s) (sp s) (u16 (pc s))) s)))
    else Undefined (StackAt (sp s)).
Proof.
  intros Hfetch Hf. dispatch Hfetch Hf. unfold exec_call, stack_store.
  now destruct (in_range (sp s) CHIP8_STACK_CAPACITY).
Qed.

(** C6, as the code has it: in every run from a loaded rom, as long as the
    cycles complete the stack pointer is between 0 and 16, 16 included.
    Neither 2nnn nor 00EE checks it: a call indexes [stack[sp]], inside the
    stack below 16 and at index 16 when the stack is full; a return indexes
    [stack[sp - 1]], inside the stack above 0 and at index 255 (the 8-bit
    [0 - 1]) when the stack is empty. *)
Theorem sp_between_0_and_16
  (image : list byte) (st s0 : chip8) (inputs : list (list Z * Z)) (s : chip8) :
  chip8_init (Some image) st = (InitDone, s0) ->
  run inputs s0 = Ok s ->
  0 <= sp s <= CHIP8_STACK_CAPACITY
  /\ (forall keys rnd opcode,
        chip8_current_opcode s = Ok opcode -> op_family opcode = 0x2000 ->
        (sp s < CHIP8_STACK_CAPACITY /\
         exists s', chip8_execute_instruction keys rnd s = Ok s' /\ sp s' = sp s + 1)
        \/
        (sp s = CHIP8_STACK_CAPACITY /\
         chip8_execute_instruction keys rnd s = Undefined (StackAt CHIP8_STACK_CAPACITY)))
  /\ (forall keys rnd opcode,
        chip8_current_opcode s = Ok opcode ->
        op_family opcode = 0x0000 -> op_nn opcode = 0xee ->
        (0 < sp s /\
         exists s', chip8_execute_instruction keys rnd s = Ok s' /\ sp s' = sp s - 1)
        \/
        (sp s = 0 /\ chip8_execute_instruction keys rnd s = Undefined (StackAt 0xff))).
Proof.
  intros Hinit Hrun.
  destruct (run_control_inv inputs s0 s (chip8_init_control_inv image st s0 Hinit) Hrun)
    as (_ & Hsp & _).
  split; [exact Hsp |]. unfold CHIP8_STACK_CAPACITY in *. split.
  - intros keys rnd opcode Hfetch Hf.
    rewrite (call_step_unchecked keys rnd s opcode Hfetch Hf).
    destruct (Z.eq_dec (sp s) 0x10) as [Hfull | Hroom].
    + right. rewrite Hfull. auto.
    + left. split; [lia |].
      rewrite (proj2 (in_range_true _ _)) by (unfold CHIP8_STACK_CAPACITY; lia).
      eexists. split; [reflexivity |]. cbn [sp set_pc set_sp]. apply u8_small. lia.
  - intros keys rnd opcode Hfetch Hf Hnn.
    rewrite (return_step keys rnd s opcode Hfetch Hf Hnn).
    destruct (Z.eq_dec (sp s) 0) as [Hempty | Hsome].
    + right. rewrite Hempty. auto.
    + left. split; [lia |].
      rewrite (u8_small (sp s - 1)) by lia.
      rewrite (proj2 (in_range_true _ _)) by (unfold CHIP8_STACK_CAPACITY; lia).
      eexists. split; [reflexivity |]. reflexivity.
Qed.

Lemma sp_between_0_and_16_witness :
  exists s,
    chip8_init (Some (map byte_of self_call_rom)) zeroed = (InitDone, boot self_call_rom) /\
    run (idle 16) (boot self_call_rom) = Ok s /\
    0 <= sp s <= CHIP8_STACK_CAPACITY.
Proof.
  assert (chip8_init (Some (map byte_of self_call_rom)) zeroed
          = (InitDone, boot self_call_rom)) as Hinit by reflexivity.
  destruct (run (idle 16) (boot self_call_rom)) as [s | |] eqn:Hrun.
  - exists s. split; [exact Hinit |]. split; [reflexivity |].
    exact (proj1 (sp_between_0_and_16 _ _ _ _ _ Hinit Hrun)).
  - vm_compute in Hrun. discriminate Hrun.
  - vm_compute in Hrun. discriminate Hrun.
Defined.

(** C6 as stated fails: sixteen nested calls bring the stack pointer to 16,
    the seventeenth indexes [stack[16]]; a return on the empty stack indexes
    [stack[255]]. *)
Lemma stack_indexed_out_of_bounds :
  (s <- run (idle 16) (boot self_call_rom) ;; Ok (sp s)) = Ok 16 /\
  run (idle 17) (boot self_call_rom) = Undefined (StackAt 16) /\
  run (idle 1) (boot [0x00; 0xee]) = Undefined (StackAt 255).
Proof. repeat split; vm_compute; reflexivity. Qed.

(** ** The sprite renderer *)

(** Loops with an invariant that follows the counter. *)
Lemma for_loop_counted {A : Type} (P : Z -> A -> Prop) (body : Z -> A -> outcome A)
  (n : nat) (i : Z) (a a' : A) :
  (forall k x x', i <= k < i + Z.of_nat n -> P k x -> body k x = Ok x' -> P (k + 1) x') ->
  P i a -> for_loop n i body a = Ok a' -> P (i + Z.of_nat n) a'.
Proof.
  revert i a. induction n as [| n IH]; intros i a Hbody Ha Hrun.
  - cbn in Hrun. injection Hrun as <-. now rewrite Z.add_0_r.
  - cbn [for_loop] in Hrun. apply bind_ok in Hrun as (x & Hx & Hrun).
    replace (i + Z.of_nat (S n)) with (i + 1 + Z.of_nat n) by lia.
    apply (IH (i + 1) x).
    + intros k y y' Hk. apply Hbody. lia.
    + apply (Hbody i a x); [lia | assumption | assumption].
    + assumption.
Qed.

(** Loops complete when every turn does. *)
Lemma for_loop_completes {A : Type} (P : A -> Prop) (body : Z -> A -> outcome A)
  (n : nat) (i : Z) (a : A) :
  (forall k x, i <= k < i + Z.of_nat n -> P x -> exists x', body k x = Ok x' /\ P x') ->
  P a -> exists a', for_loop n i body a = Ok a' /\ P a'.
Proof.
  revert i a. induction n as [| n IH]; intros i a Hbody Ha.
  - exists a. now split.
  - destruct (Hbody i a) as (x & Hx & HPx); [lia | assumption |].
    destruct (IH (i + 1) x) as (a' & Hrun & Ha'); [| assumption |].
    + intros k y Hk. apply Hbody. lia.
    + exists a'. split; [| assumption]. cbn [for_loop]. now rewrite Hx.
Qed.

(** A loop that completed: every turn met what a completed turn meets. *)
Lemma for_loop_each {A : Type} (P : A -> Prop) (Q : Z -> Prop) (body : Z -> A -> outcome A)
  (n : nat) (i : Z) (a a' : A) :
  (forall k x x', i <= k < i + Z.of_nat n -> P x -> body k x = Ok x' -> P x' /\ Q k) ->
  P a -> for_loop n i body a = Ok a' ->
  P a' /\ forall k, i <= k < i + Z.of_nat n -> Q k.
Proof.
  revert i a. induction n as [| n IH]; intros i a Hbody Ha Hrun.
  - cbn in Hrun. injection Hrun as <-. split; [assumption | intros k Hk; lia].
  - cbn [for_loop] in Hrun. apply bind_ok in Hrun as (x & Hx & Hrun).
    destruct (Hbody i a x) as (HPx & HQi); [lia | assumption | assumption |].
    destruct (IH (i + 1) x) as (Ha' & HQ); [| assumption | assumption |].
    + intros k y y' Hk. apply Hbody. lia.
    + split; [assumption |]. intros k Hk.
      destruct (Z.eq_dec k i) as [-> | Hne]; [assumption | apply HQ; lia].
Qed.

Lemma draw_pixel_clear_bit (x y i row j : Z) (s : chip8) :
  sprite_bit row j = false -> draw_pixel x y i row j s = Ok s.
Proof.
  unfold sprite_bit, draw_pixel. now destruct (Z.land row (Z.shiftr 128 j) =? 0).
Qed.

Lemma draw_pixel_set_bit (x y i row j : Z) (s : chip8) :
  sprite_bit row j = true ->
  draw_pixel x y i row j s
  = if in_grid (y + i) (x + j)
    then Ok (set_display
               (<[Z.to_nat (y + i) :=
                    put (display s !!! Z.to_nat (y + i)) (x + j)
                      (blend (cell (display s) (y + i) (x + j)) row)]> (display s))
               (if cell (display s) (y + i) (x + j) =? 0 then s else set_reg 0xf 1 s))
    else Undefined (DisplayAt (y + i) (x + j)).
Proof.
  unfold sprite_bit, draw_pixel, display_load, display_store, blend.
  destruct (Z.land row (Z.shiftr 128 j) =? 0); [discriminate |]. intros _.
  destruct (in_grid (y + i) (x + j)); [| reflexivity]. cbn [bind].
  now destruct (cell (display s) (y + i) (x + j) =? 0).
Qed.

Lemma draw_pixel_same_sprite (x y i row j : Z) (s s' : chip8) :
  draw_pixel x y i row j s = Ok s' -> same_sprite s s'.
Proof.
  destruct (sprite_bit row j) eqn:Hbit.
  - rewrite draw_pixel_set_bit by assumption.
    destruct (in_grid (y + i) (x + j)); [| discriminate].
    intros [= <-]. destruct (cell (display s) (y + i) (x + j) =? 0); now split.
  - rewrite draw_pixel_clear_bit by assumption. intros [= <-]. now split.
Qed.

Lemma draw_pixel_in_grid (x y i row j : Z) (s s' : chip8) :
  draw_pixel x y i row j s = Ok s' -> sprite_bit row j = true ->
  in_grid (y + i) (x + j) = true.
Proof.
  intros Hdraw Hbit. rewrite draw_pixel_set_bit in Hdraw by assumption.
  destruct (in_grid (y + i) (x + j)); [reflexivity | discriminate].
Qed.

Lemma cell_insert_other (d : list (list Z)) (r0 c0 r c x : Z) :
  0 <= r0 -> 0 <= c0 -> 0 <= r -> 0 <= c -> (r <> r0 \/ c <> c0) ->
  cell (<[Z.to_nat r0 := put (d !!! Z.to_nat r0) c0 x]> d) r c = cell d r c.
Proof.
  intros Hr0 Hc0 Hr Hc Hne. unfold cell.
  destruct (Z.eq_dec r r0) as [-> | Hrow].
  - rewrite list_lookup_total_insert.
    destruct (decide (Z.to_nat r0 = Z.to_nat r0 /\ (Z.to_nat r0 < length d)%nat)); [| reflexivity].
    unfold put. apply list_lookup_total_insert_ne. lia.
  - rewrite list_lookup_total_insert_ne by lia. reflexivity.
Qed.

Lemma draw_pixel_other_cell (x y i row j : Z) (s s' : chip8) (r c : Z) :
  draw_pixel x y i row j s = Ok s' ->
  0 <= r -> 0 <= c -> (r <> y + i \/ c <> x + j) ->
  cell (display s') r c = cell (display s) r c.
Proof.
  intros Hdraw Hr Hc Hne. destruct (sprite_bit row j) eqn:Hbit.
  - rewrite draw_pixel_set_bit in Hdraw by assumption.
    destruct (in_grid (y + i) (x + j)) eqn:Hin; [| discriminate Hdraw].
    apply in_grid_true in Hin. injection Hdraw as <-. cbn [display set_display].
    rewrite cell_insert_other by lia.
    now destruct (cell (display s) (y + i) (x + j) =? 0).
  - rewrite draw_pixel_clear_bit in Hdraw by assumption. now injection Hdraw as <-.
Qed.

(** A row of the sprite completes exactly when its set bits are in the
    grid; cells that no set bit addresses keep their value. *)
Lemma draw_row_completes (x y i : Z) (s : chip8) :
  0 <= I s + i < CHIP8_RAM_CAPACITY ->
  (forall j, 0 <= j < 8 -> sprite_bit (sprite_row s i) j = true ->
             in_grid (y + i) (x + j) = true) ->
  exists s', draw_row x y i s = Ok s' /\ same_sprite s s'.
Proof.
  intros Hi Hbits. unfold draw_row. rewrite ram_load_ok by assumption. cbn [bind].
  apply (for_loop_completes (same_sprite s)); [| now split].
  intros j t Hj Ht. destruct (sprite_bit (get (ram s) (I s + i)) j) eqn:Hbit.
  - rewrite draw_pixel_set_bit by assumption.
    rewrite Hbits by (assumption || lia).
    eexists. split; [reflexivity |].
    destruct Ht as (Hram & HI). destruct (cell (display t) (y + i) (x + j) =? 0); now split.
  - rewrite draw_pixel_clear_bit by assumption. now exists t.
Qed.

Lemma draw_row_each (x y i : Z) (s s' : chip8) :
  draw_row x y i s = Ok s' ->
  same_sprite s s' /\
  forall j, 0 <= j < 8 -> sprite_bit (sprite_row s i) j = true ->
            in_grid (y + i) (x + j) = true.
Proof.
  unfold draw_row. intros H. apply bind_ok in H as (row & Hrow & H).
  assert (row = sprite_row s i) as ->.
  { unfold ram_load in Hrow. destruct (in_range (I s + i) CHIP8_RAM_CAPACITY);
      [now injection Hrow as <- | discriminate Hrow]. }
  revert H.
  apply (for_loop_each (same_sprite s)
           (fun j => sprite_bit (sprite_row s i) j = true -> in_grid (y + i) (x + j) = true));
    [| now split].
  intros j t t' Hj (Hram & HI) Hpix. split.
  - apply draw_pixel_same_sprite in Hpix as (Hram' & HI'). split; congruence.
  - intros Hbit. now apply (draw_pixel_in_grid x y i (sprite_row s i) j t t').
Qed.

Lemma draw_row_other_cell (x y i : Z) (s s' : chip8) (r c : Z) :
  draw_row x y i s = Ok s' ->
  0 <= r -> 0 <= c ->
  (forall j, 0 <= j < 8 -> sprite_bit (sprite_row s i) j = true ->
             r <> y + i \/ c <> x + j) ->
  cell (display s') r c = cell (display s) r c.
Proof.
  unfold draw_row. intros H Hr Hc Hne. apply bind_ok in H as (row & Hrow & H).
  assert (row = sprite_row s i) as ->.
  { unfold ram_load in Hrow. destruct (in_range (I s + i) CHIP8_RAM_CAPACITY);
      [now injection Hrow as <- | discriminate Hrow]. }
  revert H.
  apply (for_loop_invariant (fun t => cell (display t) r c = cell (display s) r c));
    [| reflexivity].
  intros j t t' Hj Ht Hpix. rewrite <- Ht.
  destruct (sprite_bit (sprite_row s i) j) eqn:Hbit.
  - apply (draw_pixel_other_cell x y i (sprite_row s i) j t t'); auto.
  - rewrite draw_pixel_clear_bit in Hpix by assumption. now injection Hpix as <-.
Qed.

Lemma sprite_row_same (s t : chip8) (i : Z) :
  same_sprite s t -> sprite_row t i = sprite_row s i.
Proof. intros (Hram & HI). unfold sprite_row. now rewrite Hram, HI. Qed.

Lemma same_sprite_start (s : chip8) : same_sprite s (set_reg 0xf 0 s).
Proof. now split. Qed.

Lemma chip8_sprite_draw_completes (s : chip8) (x y n : Z) :
  0 <= I s -> I s + n <= CHIP8_RAM_CAPACITY -> sprite_fits s x y n ->
  exists s', chip8_sprite_draw x y n s = Ok s'.
Proof.
  intros HI Hfit Hbits. unfold chip8_sprite_draw.
  destruct (for_loop_completes (same_sprite s) (draw_row x y) (Z.to_nat n) 0
              (set_reg 0xf 0 s)) as (s' & Hrun & _);
    [| apply same_sprite_start | now exists s'].
  intros i t Hi Ht. destruct (draw_row_completes x y i t) as (t' & Hrow & Ht').
  - destruct Ht as (_ & ->). lia.
  - intros j Hj Hbit. rewrite (sprite_row_same s t i Ht) in Hbit.
    apply Hbits; [lia | assumption | assumption].
  - exists t'. split; [assumption |].
    destruct Ht as (? & ?), Ht' as (? & ?). split; congruence.
Qed.

Lemma chip8_sprite_draw_fits (s s' : chip8) (x y n : Z) :
  chip8_sprite_draw x y n s = Ok s' -> sprite_fits s x y n.
Proof.
  unfold chip8_sprite_draw. intros Hdraw.
  assert (forall i, 0 <= i < 0 + Z.of_nat (Z.to_nat n) ->
            forall j, 0 <= j < 8 -> sprite_bit (sprite_row s i) j = true ->
                      in_grid (y + i) (x + j) = true) as Hall.
  { refine (proj2 (for_loop_each (same_sprite s) _ (draw_row x y) (Z.to_nat n) 0
                     (set_reg 0xf 0 s) s' _ (same_sprite_start s) Hdraw)).
    intros i t t' Hi Ht Hrow. apply draw_row_each in Hrow as (Ht' & Hbits). split.
    - destruct Ht as (? & ?), Ht' as (? & ?). split; congruence.
    - intros j Hj Hbit. apply Hbits; [assumption |].
      now rewrite (sprite_row_same s t i Ht). }
  intros i j Hi Hj Hbit. apply (Hall i); [lia | assumption | assumption].
Qed.

Lemma chip8_sprite_draw_other_cell (s s' : chip8) (x y n r c : Z) :
  chip8_sprite_draw x y n s = Ok s' ->
  0 <= r -> 0 <= c -> sprite_misses s x y n r c ->
  cell (display s') r c = cell (display s) r c.
Proof.
  unfold chip8_sprite_draw. intros Hdraw Hr Hc Hne.
  change (cell (display s) r c) with (cell (display (set_reg 0xf 0 s)) r c).
  refine (proj2 (for_loop_invariant
                   (fun t => same_sprite s t /\
                             cell (display t) r c = cell (display (set_reg 0xf 0 s)) r c)
                   (draw_row x y) (Z.to_nat n) 0 (set_reg 0xf 0 s) s' _ _ Hdraw));
    [| split; [apply same_sprite_start | reflexivity]].
  intros i t t' Hi (Ht & Hcell) Hrow. split.
  - apply draw_row_each in Hrow as (Ht' & _).
    destruct Ht as (? & ?), Ht' as (? & ?). split; congruence.
  - rewrite <- Hcell. apply (draw_row_other_cell x y i t t'); auto.
    intros j Hj Hbit. rewrite (sprite_row_same s t i Ht) in Hbit.
    apply (Hne i j); [lia | assumption | assumption].
Qed.

(** A loop whose turns complete or go wrong in one way does the same. *)
Lemma for_loop_completes_or {A : Type} (P : A -> Prop) (F : access -> Prop)
  (body : Z -> A -> outcome A) (n : nat) (i : Z) (a : A) :
  (forall k x, i <= k < i + Z.of_nat n -> P x ->
     (exists x', body k x = Ok x' /\ P x') \/
     (exists acc, body k x = Undefined acc /\ F acc)) ->
  P a ->
  (exists a', for_loop n i body a = Ok a' /\ P a') \/
  (exists acc, for_loop n i body a = Undefined acc /\ F acc).
Proof.
  revert i a. induction n as [| n IH]; intros i a Hbody Ha.
  - left. exists a. now split.
  - cbn [for_loop].
    destruct (Hbody i a) as [(x & Hx & HPx) | (acc & Hx & Hacc)]; [lia | assumption | |].
    + rewrite Hx. cbn [bind]. apply IH; [| assumption].
      intros k y Hk. apply Hbody. lia.
    + right. exists acc. rewrite Hx. now split.
Qed.

Lemma draw_pixel_completes_or (x y i row j : Z) (s : chip8) :
  (exists s', draw_pixel x y i row j s = Ok s' /\ same_sprite s s') \/
  (exists acc, draw_pixel x y i row j s = Undefined acc /\ outside_grid acc).
Proof.
  destruct (sprite_bit row j) eqn:Hbit.
  - rewrite draw_pixel_set_bit by assumption.
    destruct (in_grid (y + i) (x + j)) eqn:Hin.
    + left. eexists. split; [reflexivity |].
      destruct (cell (display s) (y + i) (x + j) =? 0); now split.
    + right. eexists. split; [reflexivity | exact Hin].
  - left. exists s. rewrite draw_pixel_clear_bit by assumption. now split.
Qed.

Lemma chip8_sprite_draw_completes_or (s : chip8) (x y n : Z) :
  0 <= I s -> I s + n <= CHIP8_RAM_CAPACITY ->
  (exists s', chip8_sprite_draw x y n s = Ok s' /\ same_sprite s s') \/
  (exists acc, chip8_sprite_draw x y n s = Undefined acc /\ outside_grid acc).
Proof.
  intros HI Hfit. unfold chip8_sprite_draw.
  apply for_loop_completes_or; [| apply same_sprite_start].
  intros i t Hi (Hram & HIt). unfold draw_row.
  rewrite ram_load_ok by (rewrite HIt; lia). cbn [bind].
  destruct (for_loop_completes_or (same_sprite t) outside_grid
              (draw_pixel x y i (get (ram t) (I t + i))) 8 0 t)
    as [(t' & Hrow & Hram' & HI') | Hbad]; [| now split | | now right].
  - intros j u Hj (Hu1 & Hu2).
    destruct (draw_pixel_completes_or x y i (get (ram t) (I t + i)) j u)
      as [(u' & Hpix & Hu1' & Hu2') | Hbad]; [| now right].
    left. exists u'. split; [assumption |]. split; congruence.
  - left. exists t'. split; [assumption |]. split; congruence.
Qed.

(** C5, as the code has it: the renderer neither checks nor wraps the
    coordinates.  It completes exactly when every set bit of the sprite
    addresses a cell [(y + i, x + j)] of the 64x32 grid, and then no other
    cell changes; with a set bit outside of the grid it does not complete,
    it indexes [display] outside its bounds. *)
Theorem sprite_draw_unchecked (s : chip8) (x y n : Z) :
  0 <= I s -> I s + n <= CHIP8_RAM_CAPACITY ->
  (sprite_fits s x y n -> exists s', chip8_sprite_draw x y n s = Ok s')
  /\
  (forall s', chip8_sprite_draw x y n s = Ok s' ->
     sprite_fits s x y n /\
     (forall r c, 0 <= r -> 0 <= c -> sprite_misses s x y n r c ->
                  cell (display s') r c = cell (display s) r c))
  /\
  (forall i j, 0 <= i < n -> 0 <= j < 8 -> sprite_bit (sprite_row s i) j = true ->
               in_grid (y + i) (x + j) = false ->
               exists acc, chip8_sprite_draw x y n s = Undefined acc /\ outside_grid acc).
Proof.
  intros HI Hfit. split; [| split].
  - now apply chip8_sprite_draw_completes.
  - intros s' Hdraw. split.
    + now apply (chip8_sprite_draw_fits s s').
    + intros r c Hr Hc Hmiss. now apply (chip8_sprite_draw_other_cell s s' x y n).
  - intros i j Hi Hj Hbit Hout.
    destruct (chip8_sprite_draw_completes_or s x y n HI Hfit)
      as [(s' & Hdraw & _) | Hbad]; [| exact Hbad].
    rewrite (chip8_sprite_draw_fits s s' x y n Hdraw i j Hi Hj Hbit) in Hout.
    discriminate Hout.
Qed.

Lemma sprite_draw_unchecked_witness :
  0 <= I (boot []) /\ I (boot []) + 5 <= CHIP8_RAM_CAPACITY /\
  exists s', chip8_sprite_draw 59 27 5 (boot []) = Ok s'.
Proof.
  assert (0 <= I (boot [])) as HI by (vm_compute; discriminate).
  assert (I (boot []) + 5 <= CHIP8_RAM_CAPACITY) as Hfit by (vm_compute; discriminate).
  split; [exact HI |]. split; [exact Hfit |].
  apply (proj1 (sprite_draw_unchecked (boot []) 59 27 5 HI Hfit)).
  intros i j Hi Hj Hbit. apply in_grid_true.
  unfold CHIP8_DISPLAY_HEIGHT, CHIP8_DISPLAY_WIDTH.
  assert (j < 4) as Hleft; [| lia].
  assert (i = 0 \/ i = 1 \/ i = 2 \/ i = 3 \/ i = 4) as Hci by lia.
  assert (j = 0 \/ j = 1 \/ j = 2 \/ j = 3 \/ j = 4 \/ j = 5 \/ j = 6 \/ j = 7) as Hcj by lia.
  destruct Hci as [-> | [-> | [-> | [-> | ->]]]];
    destruct Hcj as [-> | [-> | [-> | [-> | [-> | [-> | [-> | ->]]]]]]];
    (lia || (vm_compute in Hbit; discriminate Hbit)).
Defined.

(** C5 as stated fails: with 255 in the registers the draw neither stops
    at the border nor wraps, it indexes [display[255][255]]. *)
Lemma sprite_draw_leaves_grid :
  in_grid 255 255 = false /\
  run (idle 3) (boot far_draw_rom) = Undefined (DisplayAt 255 255).
Proof. split; vm_compute; reflexivity. Qed.

(** ** Collisions *)

Lemma draw_frame_refl (t : chip8) : draw_frame t t.
Proof. unfold draw_frame, same_sprite. auto. Qed.

Lemma draw_frame_trans (t u w : chip8) :
  draw_frame t u -> draw_frame u w -> draw_frame t w.
Proof.
  unfold draw_frame, same_sprite.
  intros ((H1 & H2) & H3 & H4 & H5) ((K1 & K2) & K3 & K4 & K5).
  split; [split; congruence |]. split; [congruence |]. split; auto.
Qed.

Lemma display_shape_insert (d : list (list Z)) (r c x : Z) :
  display_shape d -> 0 <= r < CHIP8_DISPLAY_HEIGHT ->
  display_shape (<[Z.to_nat r := put (d !!! Z.to_nat r) c x]> d).
Proof.
  unfold display_shape, CHIP8_DISPLAY_HEIGHT. intros (Hlen & Hrows) Hr.
  split; [now rewrite length_insert |].
  apply Forall_insert; [assumption |]. unfold put. rewrite length_insert.
  apply (Forall_lookup_total_1 (fun row => length row = Z.to_nat CHIP8_DISPLAY_WIDTH));
    [assumption | lia].
Qed.

Lemma reg_flag_set (t : chip8) : reg t 0xf = 1 -> reg (set_reg 0xf 1 t) 0xf = 1.
Proof.
  intros H. unfold reg, set_reg, get, put in *. cbn [v set_v].
  rewrite list_lookup_total_insert. now destruct (decide _).
Qed.

Lemma draw_pixel_frame (x y i row j : Z) (t t' : chip8) :
  draw_pixel x y i row j t = Ok t' -> draw_frame t t'.
Proof.
  intros Hdraw. destruct (sprite_bit row j) eqn:Hbit.
  - rewrite draw_pixel_set_bit in Hdraw by assumption.
    destruct (in_grid (y + i) (x + j)) eqn:Hin; [| discriminate Hdraw].
    apply in_grid_true in Hin. injection Hdraw as <-.
    unfold draw_frame, same_sprite. cbn [display set_display].
    destruct (cell (display t) (y + i) (x + j) =? 0).
    + split; [now split |]. split; [reflexivity |].
      split; [| auto]. intros Hshape. now apply display_shape_insert.
    + split; [now split |]. split; [| split].
      * unfold set_reg, put. cbn [v set_v]. apply length_insert.
      * intros Hshape. now apply display_shape_insert.
      * apply reg_flag_set.
  - rewrite draw_pixel_clear_bit in Hdraw by assumption. injection Hdraw as <-.
    apply draw_frame_refl.
Qed.

Lemma cell_insert_same (d : list (list Z)) (r c x : Z) :
  display_shape d -> in_grid r c = true ->
  cell (<[Z.to_nat r := put (d !!! Z.to_nat r) c x]> d) r c = x.
Proof.
  unfold display_shape. intros (Hlen & Hrows) Hin. apply in_grid_true in Hin.
  unfold CHIP8_DISPLAY_HEIGHT, CHIP8_DISPLAY_WIDTH in *. unfold cell, put.
  rewrite list_lookup_total_insert_eq by lia.
  apply list_lookup_total_insert_eq.
  rewrite (Forall_lookup_total_1 (fun row => length row = Z.to_nat 64) d) by (assumption || lia).
  lia.
Qed.

(** The pixel of a set bit: the cell gets the blend of its value with the
    row, and a cell that was not zero sets the flag. *)
Lemma draw_pixel_target (x y i row j : Z) (t t' : chip8) :
  draw_pixel x y i row j t = Ok t' -> sprite_bit row j = true ->
  display_shape (display t) ->
  length (v t) = Z.to_nat CHIP8_REGISTER_COUNT ->
  cell (display t') (y + i) (x + j) = blend (cell (display t) (y + i) (x + j)) row /\
  (cell (display t) (y + i) (x + j) <> 0 -> reg t' 0xf = 1).
Proof.
  intros Hdraw Hbit Hshape Hlen. rewrite draw_pixel_set_bit in Hdraw by assumption.
  destruct (in_grid (y + i) (x + j)) eqn:Hin; [| discriminate Hdraw].
  injection Hdraw as <-. cbn [display set_display]. split.
  - destruct (cell (display t) (y + i) (x + j) =? 0); now apply cell_insert_same.
  - intros Hlit. destruct (Z.eqb_spec (cell (display t) (y + i) (x + j)) 0) as [E | _];
      [contradiction |].
    change (reg (set_reg 0xf 1 t) 0xf = 1). rewrite reg_set_reg; [reflexivity |].
    rewrite Hlen. unfold CHIP8_REGISTER_COUNT. lia.
Qed.

Lemma draw_row_frame (x y i : Z) (t t' : chip8) :
  draw_row x y i t = Ok t' -> draw_frame t t'.
Proof.
  unfold draw_row. intros H. apply bind_ok in H as (row & _ & H). revert H.
  apply for_loop_invariant; [| apply draw_frame_refl].
  intros j u u' _ Hu Hpix. apply (draw_frame_trans t u u'); [assumption |].
  now apply draw_pixel_frame in Hpix.
Qed.

Lemma draw_row_target (x y i j0 : Z) (t t' : chip8) :
  draw_row x y i t = Ok t' ->
  0 <= j0 < 8 -> sprite_bit (sprite_row t i) j0 = true ->
  display_shape (display t) ->
  length (v t) = Z.to_nat CHIP8_REGISTER_COUNT ->
  cell (display t') (y + i) (x + j0)
  = blend (cell (display t) (y + i) (x + j0)) (sprite_row t i) /\
  (cell (display t) (y + i) (x + j0) <> 0 -> reg t' 0xf = 1).
Proof.
  intros Hrow Hj0 Hbit Hshape Hlen.
  pose proof (proj2 (draw_row_each x y i t t' Hrow) j0 Hj0 Hbit) as Hin.
  apply in_grid_true in Hin.
  unfold draw_row in Hrow. apply bind_ok in Hrow as (row & Hload & Hrow).
  assert (row = sprite_row t i) as ->.
  { unfold ram_load in Hload. destruct (in_range (I t + i) CHIP8_RAM_CAPACITY);
      [now injection Hload as <- | discriminate Hload]. }
  set (d := cell (display t) (y + i) (x + j0)).
  pose proof (for_loop_counted
                (fun j u => draw_frame t u /\
                            cell_phase (y + i) (x + j0) d (sprite_row t i) j0 j u)
                (draw_pixel x y i (sprite_row t i)) 8 0 t t') as Hloop.
  destruct Hloop as (_ & _ & Hafter); [| | exact Hrow | apply Hafter; cbn; lia].
  - intros j u u' Hj (Hframe & Hbefore & Hdone) Hpix.
    pose proof (draw_pixel_frame _ _ _ _ _ _ _ Hpix) as Hstep.
    split; [now apply (draw_frame_trans t u u') |].
    destruct Hframe as (_ & Hvlen & Hsh & _).
    destruct (Z.eq_dec j j0) as [-> | Hne].
    + unfold cell_phase. split; [intros; lia | intros _].
      destruct (draw_pixel_target x y i (sprite_row t i) j0 u u' Hpix Hbit) as (Hcell & Hflag);
        [auto | congruence |].
      rewrite Hbefore in Hcell, Hflag by lia. auto.
    + assert (cell (display u') (y + i) (x + j0) = cell (display u) (y + i) (x + j0)) as Hsame
        by (apply (draw_pixel_other_cell x y i (sprite_row t i) j u u'); auto; lia).
      unfold cell_phase. rewrite Hsame. split.
      * intros Hle. apply Hbefore. lia.
      * intros Hgt. destruct Hdone as (Hcell & Hflag); [lia |].
        split; [assumption |]. intros Hd. apply Hstep. auto.
  - split; [apply draw_frame_refl |]. unfold cell_phase. split; [reflexivity | intros; lia].
Qed.

(** A whole draw, seen from the cell of one set bit of the sprite. *)
Lemma chip8_sprite_draw_target (x y n i0 j0 : Z) (s s' : chip8) :
  chip8_sprite_draw x y n s = Ok s' ->
  0 <= i0 < n -> 0 <= j0 < 8 -> sprite_bit (sprite_row s i0) j0 = true ->
  display_shape (display s) ->
  length (v s) = Z.to_nat CHIP8_REGISTER_COUNT ->
  draw_frame (set_reg 0xf 0 s) s' /\
  cell (display s') (y + i0) (x + j0)
  = blend (cell (display s) (y + i0) (x + j0)) (sprite_row s i0) /\
  (cell (display s) (y + i0) (x + j0) <> 0 -> reg s' 0xf = 1).
Proof.
  intros Hdraw Hi0 Hj0 Hbit Hshape Hlen.
  pose proof (chip8_sprite_draw_fits s s' x y n Hdraw i0 j0 Hi0 Hj0 Hbit) as Hin.
  apply in_grid_true in Hin. unfold chip8_sprite_draw in Hdraw.
  set (s0 := set_reg 0xf 0 s) in *.
  set (d := cell (display s) (y + i0) (x + j0)).
  assert (length (v s0) = Z.to_nat CHIP8_REGISTER_COUNT) as Hlen0.
  { unfold s0, set_reg, put. cbn [v set_v]. now rewrite length_insert. }
  pose proof (for_loop_counted
                (fun i u => draw_frame s0 u /\
                            cell_phase (y + i0) (x + j0) d (sprite_row s i0) i0 i u)
                (draw_row x y) (Z.to_nat n) 0 s0 s') as Hloop.
  destruct Hloop as (Hframe & _ & Hafter); [| | exact Hdraw |].
  - intros i u u' Hi (Hframe & Hbefore & Hdone) Hrow.
    pose proof (draw_row_frame _ _ _ _ _ Hrow) as Hstep.
    split; [now apply (draw_frame_trans s0 u u') |].
    destruct Hframe as (Hsprite & Hvlen & Hsh & _).
    destruct (Z.eq_dec i i0) as [-> | Hne].
    + unfold cell_phase. split; [intros; lia | intros _].
      destruct (draw_row_target x y i0 j0 u u' Hrow Hj0) as (Hcell & Hflag).
      * now rewrite (sprite_row_same s0 u i0 Hsprite).
      * now apply Hsh.
      * congruence.
      * rewrite (sprite_row_same s0 u i0 Hsprite) in Hcell.
        rewrite Hbefore in Hcell, Hflag by lia. auto.
    +       assert (cell (display u') (y + i0) (x + j0) = cell (display u) (y + i0) (x + j0))
        as Hsame.
      { apply (draw_row_other_cell x y i u u'); [assumption | lia | lia |].
        intros j _ _. left. lia. }
      unfold cell_phase. rewrite Hsame. split.
      * intros Hle. apply Hbefore. lia.
      * intros Hgt. destruct Hdone as (Hcell & Hflag); [lia |].
        split; [assumption |]. intros Hd. apply Hstep. auto.
  - split; [apply draw_frame_refl |]. unfold cell_phase. split; [reflexivity | intros; lia].
  - split; [assumption |]. apply Hafter. lia.
Qed.

(** A set bit drawn over a cell that is off leaves the cell on. *)
Lemma blend_off_is_on (row j : Z) :
  0 <= j < 8 -> sprite_bit row j = true -> blend 0 row <> 0.
Proof.
  intros Hj Hbit. unfold blend, sprite_bit in *.
  change (to_int 0) with 0. rewrite Z.lxor_0_l.
  assert (u32 row <> 0) as Hrow.
  { intros Hzero. unfold u32 in Hzero.
    assert (Z.land row (Z.shiftr 0x80 j) = 0) as Hclear; [| now rewrite Hclear in Hbit].
    assert (Z.land (Z.shiftr 0x80 j) (Z.ones 32) = Z.shiftr 0x80 j) as Hmask.
    { assert (j = 0 \/ j = 1 \/ j = 2 \/ j = 3 \/ j = 4 \/ j = 5 \/ j = 6 \/ j = 7)
        as Hc by lia.
      destruct Hc as [-> | [-> | [-> | [-> | [-> | [-> | [-> | ->]]]]]]]; reflexivity. }
    rewrite <- Hmask, (Z.land_comm (Z.shiftr 0x80 j)), Z.land_assoc.
    rewrite (Z.land_ones row 32) by lia.
    change (2 ^ 32) with 0x100000000. now rewrite Hzero. }
  assert (0 <= u32 row < 0x100000000) as Hrange
    by (unfold u32; apply Z.mod_pos_bound; lia).
  unfold u32 at 1.
  replace (u32 row * 0xffffffff)
    with (0x100000000 - u32 row + (u32 row - 1) * 0x100000000) by lia.
  rewrite Z_mod_plus_full, Z.mod_small; lia.
Qed.

(** C1, as the code has it: when the draw completes, the sprite has a set
    bit and the cell that this bit addresses is off before the first draw,
    the second of two draws with the same [x], [y] and height finds that
    cell on and sets VF to 1. *)
Theorem second_draw_collides (s : chip8) (x y n i0 j0 : Z) :
  display_shape (display s) ->
  length (v s) = Z.to_nat CHIP8_REGISTER_COUNT ->
  0 <= I s -> I s + n <= CHIP8_RAM_CAPACITY ->
  sprite_fits s x y n ->
  0 <= i0 < n -> 0 <= j0 < 8 -> sprite_bit (sprite_row s i0) j0 = true ->
  cell (display s) (y + i0) (x + j0) = 0 ->
  exists s1 s2,
    chip8_sprite_draw x y n s = Ok s1 /\
    chip8_sprite_draw x y n s1 = Ok s2 /\
    reg s2 0xf = 1.
Proof.
  intros Hshape Hlen HI Hram Hfits Hi0 Hj0 Hbit Hoff.
  destruct (chip8_sprite_draw_completes s x y n HI Hram Hfits) as (s1 & Hdraw1).
  destruct (chip8_sprite_draw_target x y n i0 j0 s s1 Hdraw1 Hi0 Hj0 Hbit Hshape Hlen)
    as (((Hram1 & HI1) & Hlen1 & Hshape1 & _) & Hcell1 & _).
  cbn [ram I display v set_reg set_v] in Hram1, HI1, Hshape1.
  assert (same_sprite s s1) as Hsame by now split.
  assert (length (v s1) = Z.to_nat CHIP8_REGISTER_COUNT) as Hlen1'.
  { rewrite Hlen1. unfold set_reg, put. cbn [v set_v]. now rewrite length_insert. }
  assert (sprite_fits s1 x y n) as Hfits1.
  { intros i j Hi Hj Hb. rewrite (sprite_row_same s s1 i Hsame) in Hb. now apply Hfits. }
  destruct (chip8_sprite_draw_completes s1 x y n) as (s2 & Hdraw2);
    [now rewrite HI1 | now rewrite HI1 | assumption |].
  exists s1, s2. split; [assumption |]. split; [assumption |].
  destruct (chip8_sprite_draw_target x y n i0 j0 s1 s2 Hdraw2 Hi0 Hj0) as (_ & _ & Hflag);
    [now rewrite (sprite_row_same s s1 i0 Hsame) | now apply Hshape1 | assumption |].
  apply Hflag. rewrite Hcell1, Hoff. now apply (blend_off_is_on _ j0).
Qed.

Lemma second_draw_collides_witness :
  exists s1 s2,
    chip8_sprite_draw 0 0 1 (set_I 13 (boot [])) = Ok s1 /\
    chip8_sprite_draw 0 0 1 s1 = Ok s2 /\
    reg s2 0xf = 1.
Proof.
  apply (second_draw_collides (set_I 13 (boot [])) 0 0 1 0 0).
  - split; [reflexivity |]. vm_compute. repeat constructor.
  - reflexivity.
  - vm_compute. discriminate.
  - vm_compute. discriminate.
  - intros i j Hi Hj Hbit. assert (i = 0) as -> by lia.
    assert (j = 0 \/ j = 1 \/ j = 2 \/ j = 3 \/ j = 4 \/ j = 5 \/ j = 6 \/ j = 7) as Hc by lia.
    destruct Hc as [-> | [-> | [-> | [-> | [-> | [-> | [-> | ->]]]]]]];
      (reflexivity || (vm_compute in Hbit; discriminate Hbit)).
  - lia.
  - lia.
  - reflexivity.
  - reflexivity.
Defined.

(** C1 as stated fails.  In the run of [lit_cell_rom] the cell (0, 7)
    holds 0x80 when the one-pixel sprite 80 is drawn over it: the first
    draw (cycle 7) turns it off, the second (cycle 8) turns it on again and
    leaves VF at 0.  On the cleared display of [dot_twice_rom] the cell
    (0, 0) is not off after the two draws either: it holds 0x100. *)
Lemma double_draw_neither_clears_nor_collides :
  (s <- run (idle 6) (boot lit_cell_rom) ;; Ok (cell (display s) 0 7)) = Ok 0x80 /\
  (s <- run (idle 7) (boot lit_cell_rom) ;; Ok (cell (display s) 0 7, reg s 0xf))
  = Ok (0, 1) /\
  (s <- run (idle 8) (boot lit_cell_rom) ;; Ok (cell (display s) 0 7, reg s 0xf))
  = Ok (0xffffff80, 0) /\
  (s <- run (idle 3) (boot dot_twice_rom) ;; Ok (cell (display s) 0 0, reg s 0xf))
  = Ok (0x100, 1).
Proof. repeat split; vm_compute; reflexivity. Qed.

(** ** The event loop *)

Lemma keys_binary_put (keys : list Z) (i x : Z) :
  keys_binary keys -> x = 0 \/ x = 1 -> keys_binary (put keys i x).
Proof.
  intros (Hlen & Hall) Hx. unfold keys_binary, put. rewrite length_insert.
  split; [assumption |]. now apply Forall_insert.
Qed.

Lemma set_key_binary (keys : list Z) (sym : keycode) (x : Z) :
  keys_binary keys -> x = 0 \/ x = 1 -> keys_binary (set_key keys sym x).
Proof.
  intros Hkeys Hx. unfold set_key.
  destruct (key_slot sym); [now apply keys_binary_put | assumption].
Qed.

(** No case label of the two switches assigns [keys[0xb]]. *)
Lemma set_key_not_b (keys : list Z) (sym : keycode) (x : Z) :
  get (set_key keys sym x) 0xb = get keys 0xb.
Proof.
  unfold set_key. destruct sym; cbn [key_slot]; try reflexivity;
    apply get_put_other; lia.
Qed.

Lemma poll_events_keys (events : list event) (keys : list Z) :
  keys_binary keys ->
  keys_binary (snd (poll_events events keys)) /\
  get (snd (poll_events events keys)) 0xb = get keys 0xb.
Proof.
  revert keys. induction events as [| e events IH]; intros keys Hkeys.
  - now split.
  - destruct e as [| sym | sym |]; cbn [poll_events].
    + now split.
    + destruct (IH (set_key keys sym 1)) as (Hbin & Hb); [apply set_key_binary; auto |].
      split; [assumption |]. now rewrite Hb, set_key_not_b.
    + destruct (IH (set_key keys sym 0)) as (Hbin & Hb); [apply set_key_binary; auto |].
      split; [assumption |]. now rewrite Hb, set_key_not_b.
    + now apply IH.
Qed.

Lemma no_keys_binary : keys_binary no_keys.
Proof. split; [reflexivity |]. vm_compute. repeat constructor. Qed.

(** X1: whatever the user types, in the main loop every entry of [keys] is
    0 or 1 and [keys[0xb]] is never written: the label of the key b assigns
    index 0xd.  Started with all keys up, the loop never sees key 0xb
    down. *)
Theorem main_loop_key_b_never_down
  (frames : list (list event * Z)) (s s' : chip8) (keys' : list Z) :
  main_loop frames no_keys s = Ok (keys', s') ->
  keys_binary keys' /\ get keys' 0xb = 0.
Proof.
  assert (forall keys, keys_binary keys -> get keys 0xb = 0 ->
                       main_loop frames keys s = Ok (keys', s') ->
                       keys_binary keys' /\ get keys' 0xb = 0) as Hgen.
  { revert s. induction frames as [| [events rnd] frames IH]; intros s keys Hbin Hb Hrun.
    - cbn in Hrun. injection Hrun as <- <-. now split.
    - cbn [main_loop] in Hrun.
      destruct (poll_events_keys events keys Hbin) as (Hbin' & Hb').
      destruct (poll_events events keys) as [running keys1]. cbn [snd] in Hbin', Hb'.
      apply bind_ok in Hrun as (s1 & _ & Hrun). destruct running.
      + apply (IH s1 keys1); [assumption | congruence | assumption].
      + injection Hrun as <- <-. split; [assumption | congruence]. }
  apply Hgen; [exact no_keys_binary | reflexivity].
Qed.

Lemma main_loop_key_b_never_down_witness :
  exists keys' s',
    main_loop [([SDL_KEYDOWN SDLK_b; SDL_KEYDOWN SDLK_3], 0); ([SDL_KEYUP SDLK_3], 0)]
      no_keys (boot [0xf1; 0x0a; 0xf2; 0x0a]) = Ok (keys', s') /\
    keys_binary keys' /\ get keys' 0xb = 0 /\ get keys' 0xd = 1 /\ reg s' 1 = 3.
Proof.
  destruct (main_loop [([SDL_KEYDOWN SDLK_b; SDL_KEYDOWN SDLK_3], 0); ([SDL_KEYUP SDLK_3], 0)]
              no_keys (boot [0xf1; 0x0a; 0xf2; 0x0a])) as [[keys' s'] | |] eqn:Hrun.
  - exists keys', s'. split; [reflexivity |].
    destruct (main_loop_key_b_never_down _ _ _ _ Hrun) as (Hbin & Hb).
    split; [exact Hbin |]. split; [exact Hb |].
    vm_compute in Hrun. injection Hrun as <- <-. split; reflexivity.
  - vm_compute in Hrun. discriminate Hrun.
  - vm_compute in Hrun. discriminate Hrun.
Defined.

Lemma poll_events_quit (before after : list event) (keys : list Z) :
  fst (poll_events before keys) = true ->
  poll_events (before ++ SDL_QUIT :: after) keys = (false, snd (poll_events before keys)).
Proof.
  revert keys. induction before as [| e before IH]; intros keys Hrun.
  - reflexivity.
  - destruct e as [| sym | sym |]; cbn [poll_events app] in *.
    + discriminate Hrun.
    + now apply IH.
    + now apply IH.
    + now apply IH.
Qed.

(** X2: in the frame in which [SDL_QUIT] is polled the events queued behind
    it are not looked at, one more instruction is executed with the keys
    as they were at the quit, and no later frame runs. *)
Theorem main_loop_quit
  (before after : list event) (rnd : Z) (rest : list (list event * Z))
  (keys : list Z) (s : chip8) :
  fst (poll_events before keys) = true ->
  main_loop ((before ++ SDL_QUIT :: after, rnd) :: rest) keys s
  = (s' <- chip8_execute_instruction (snd (poll_events before keys)) rnd s ;;
     Ok (snd (poll_events before keys), s')).
Proof.
  intros Hrun. cbn [main_loop]. rewrite (poll_events_quit before after keys Hrun).
  reflexivity.
Qed.

Lemma main_loop_quit_witness :
  main_loop (([SDL_KEYDOWN SDLK_5] ++ SDL_QUIT :: [SDL_KEYDOWN SDLK_6], 0)
             :: [([SDL_KEYDOWN SDLK_7], 0)]) no_keys (boot [0x60; 0x2a])
  = Ok (<[5%nat := 1]> no_keys, add_pc 2 (set_reg 0 0x2a (boot [0x60; 0x2a]))).
Proof.
  rewrite (main_loop_quit [SDL_KEYDOWN SDLK_5] [SDL_KEYDOWN SDLK_6] 0
             [([SDL_KEYDOWN SDLK_7], 0)] no_keys (boot [0x60; 0x2a]) eq_refl).
  reflexivity.
Defined.

(** ** Fx0A, Ex9E and ExA1 *)

Lemma first_key_down (keys : list Z) (n : nat) (lo k : Z) :
  first_key keys n lo = Some k ->
  lo <= k < lo + Z.of_nat n /\ get keys k <> 0 /\
  forall i, lo <= i < k -> get keys i = 0.
Proof.
  revert lo. induction n as [| n IH]; intros lo Hfirst; [discriminate Hfirst |].
  cbn [first_key] in Hfirst. destruct (Z.eqb_spec (get keys lo) 0) as [Hup | Hdown].
  - destruct (IH (lo + 1) Hfirst) as (Hk & Hkd & Hbelow).
    split; [lia |]. split; [assumption |]. intros i Hi.
    destruct (Z.eq_dec i lo) as [-> | Hne]; [assumption | apply Hbelow; lia].
  - injection Hfirst as <-. split; [lia |]. split; [assumption |]. intros i Hi. lia.
Qed.

Lemma first_key_none_up (keys : list Z) (n : nat) (lo : Z) :
  first_key keys n lo = None ->
  forall i, lo <= i < lo + Z.of_nat n -> get keys i = 0.
Proof.
  revert lo. induction n as [| n IH]; intros lo Hfirst i Hi; [lia |].
  cbn [first_key] in Hfirst. destruct (Z.eqb_spec (get keys lo) 0) as [Hup | Hdown];
    [| discriminate Hfirst].
  destruct (Z.eq_dec i lo) as [-> | Hne]; [assumption | apply (IH (lo + 1)); [assumption | lia]].
Qed.

(** X3: Fx0A always completes, and in one of two ways: no key is down and
    the state is unchanged, or V[x] receives the index (below 16) of a key
    that is down, below which no key is down, and pc moves on by 2.  With
    the keys of the main loop that index is never 0xb. *)
Theorem wait_key_outcomes (keys : list Z) (rnd : Z) (s : chip8) (opcode : Z) :
  chip8_current_opcode s = Ok opcode ->
  op_family opcode = 0xf000 -> op_nn opcode = 0x0a ->
  ((forall i, 0 <= i < KEYS_COUNT -> get keys i = 0) /\
   chip8_execute_instruction keys rnd s = Ok s)
  \/
  (exists k, 0 <= k < KEYS_COUNT /\ get keys k <> 0 /\
             (forall i, 0 <= i < k -> get keys i = 0) /\
             (get keys 0xb = 0 -> k <> 0xb) /\
             chip8_execute_instruction keys rnd s
             = Ok (add_pc 2 (set_reg (op_x opcode) k s))).
Proof.
  intros Hfetch Hf Hnn. dispatch Hfetch Hf. unfold exec_f. cbv zeta. rewrite Hnn.
  cbv beta iota delta [Z.eqb Pos.eqb].
  destruct (first_key keys (Z.to_nat KEYS_COUNT) 0) as [k |] eqn:Hfirst.
  - right. exists k. destruct (first_key_down _ _ _ _ Hfirst) as (Hk & Hdown & Hbelow).
    split; [unfold KEYS_COUNT in *; lia |]. split; [assumption |].
    split; [assumption |]. split; [| reflexivity].
    intros Hb ->. contradiction.
  - left. split; [| reflexivity]. intros i Hi.
    apply (first_key_none_up _ _ _ Hfirst). unfold KEYS_COUNT in *. lia.
Qed.

Lemma wait_key_outcomes_witness :
  exists k, 0 <= k < KEYS_COUNT /\
    chip8_execute_instruction (<[13%nat := 1]> no_keys) 0 (boot [0xf3; 0x0a])
    = Ok (add_pc 2 (set_reg 3 k (boot [0xf3; 0x0a]))).
Proof.
  destruct (wait_key_outcomes (<[13%nat := 1]> no_keys) 0 (boot [0xf3; 0x0a]) 0xf30a
              eq_refl eq_refl eq_refl) as [(Hup & _) | (k & Hk & _ & _ & _ & Hstep)].
  - assert (0 <= 13 < KEYS_COUNT) as H13 by (unfold KEYS_COUNT; lia).
    specialize (Hup 13 H13). vm_compute in Hup. discriminate Hup.
  - exists k. split; [exact Hk | exact Hstep].
Defined.

Lemma keys_binary_get (keys : list Z) (i : Z) :
  keys_binary keys -> 0 <= i < KEYS_COUNT -> get keys i = 0 \/ get keys i = 1.
Proof.
  intros (Hlen & Hall) Hi. unfold get, KEYS_COUNT in *.
  apply (Forall_lookup_total_1 (fun k => k = 0 \/ k = 1)); [assumption | lia].
Qed.

(** X4: Ex9E and ExA1 index [keys] with the whole register value.  Below
    16, and with keys that are 0 or 1, exactly one of the two skips: Ex9E
    when the key is down, ExA1 when it is up.  From 16 on nothing is
    masked or checked and [keys] is indexed outside its sixteen entries. *)
Theorem key_skip_pair (keys : list Z) (rnd : Z) (s : chip8) (opcode : Z) :
  chip8_current_opcode s = Ok opcode ->
  op_family opcode = 0xe000 -> op_nn opcode = 0x9e \/ op_nn opcode = 0xa1 ->
  0 <= reg s (op_x opcode) ->
  (reg s (op_x opcode) < KEYS_COUNT -> keys_binary keys ->
   chip8_execute_instruction keys rnd s
   = Ok (add_pc (if Z.eqb (get keys (reg s (op_x opcode))) 1
                 then (if op_nn opcode =? 0x9e then 4 else 2)
                 else (if op_nn opcode =? 0x9e then 2 else 4)) s))
  /\
  (KEYS_COUNT <= reg s (op_x opcode) ->
   chip8_execute_instruction keys rnd s = Undefined (KeysAt (reg s (op_x opcode)))).
Proof.
  intros Hfetch Hf Hnn Hreg. split.
  - intros Hlow Hbin. dispatch Hfetch Hf. unfold exec_e, keys_load.
    rewrite (proj2 (in_range_true _ _)) by lia.
    destruct (keys_binary_get keys (reg s (op_x opcode)) Hbin) as [Hk | Hk]; [lia | |];
      destruct Hnn as [Hnn | Hnn]; rewrite Hnn, Hk; reflexivity.
  - intros Hhigh. dispatch Hfetch Hf. unfold exec_e, keys_load.
    rewrite (proj2 (in_range_false _ _)) by lia.
    destruct Hnn as [Hnn | Hnn]; rewrite Hnn; reflexivity.
Qed.

Lemma key_skip_pair_witness :
  chip8_execute_instruction no_keys 0 (boot [0xe0; 0xa1]) = Ok (add_pc 4 (boot [0xe0; 0xa1]))
  /\
  (s <- run (idle 1) (boot [0x60; 0x10; 0xe0; 0x9e]) ;;
   chip8_execute_instruction no_keys 0 s) = Undefined (KeysAt 16).
Proof.
  split.
  - refine (proj1 (key_skip_pair no_keys 0 (boot [0xe0; 0xa1]) 0xe0a1
                     eq_refl eq_refl (or_intror eq_refl) _) _ no_keys_binary);
      vm_compute; [discriminate | reflexivity].
  - vm_compute. reflexivity.
Defined.

(** ** Leaving through unimplemented_instruction *)

Lemma bind_exit {A B : Type} (m : outcome A) (f : A -> outcome B) (o : Z) :
  bind m f = Exit o -> m = Exit o \/ exists a, m = Ok a /\ f a = Exit o.
Proof.
  destruct m as [a | o' | a]; cbn [bind]; intros H.
  - right. now exists a.
  - left. now injection H as ->.
  - discriminate H.
Qed.

Lemma for_loop_never_exits {A : Type} (body : Z -> A -> outcome A) (n : nat) (i : Z)
  (a : A) (o : Z) :
  (forall k x, body k x <> Exit o) -> for_loop n i body a <> Exit o.
Proof.
  intros Hbody. revert i a. induction n as [| n IH]; intros i a Hrun.
  - discriminate Hrun.
  - cbn [for_loop] in Hrun. apply bind_exit in Hrun as [Hx | (x & _ & Hrun)].
    + now apply (Hbody i a).
    + now apply (IH (i + 1) x).
Qed.

Lemma ram_load_never_exits (s : chip8) (i o : Z) : ram_load s i <> Exit o.
Proof. unfold ram_load. now destruct (in_range i CHIP8_RAM_CAPACITY). Qed.

Lemma ram_store_never_exits (i x : Z) (s : chip8) (o : Z) : ram_store i x s <> Exit o.
Proof. unfold ram_store. now destruct (in_range i CHIP8_RAM_CAPACITY). Qed.

Lemma display_store_never_exits (r c x : Z) (s : chip8) (o : Z) :
  display_store r c x s <> Exit o.
Proof. unfold display_store. now destruct (in_grid r c). Qed.

Lemma chip8_current_opcode_never_exits (s : chip8) (o : Z) :
  chip8_current_opcode s <> Exit o.
Proof.
  unfold chip8_current_opcode. intros H.
  apply bind_exit in H as [H | (hi & _ & H)]; [now apply ram_load_never_exits in H |].
  apply bind_exit in H as [H | (lo & _ & H)]; [now apply ram_load_never_exits in H |].
  discriminate H.
Qed.

Lemma chip8_sprite_draw_never_exits (x y n : Z) (s : chip8) (o : Z) :
  chip8_sprite_draw x y n s <> Exit o.
Proof.
  unfold chip8_sprite_draw. apply for_loop_never_exits. intros i t H.
  unfold draw_row in H.
  apply bind_exit in H as [H | (row & _ & H)]; [now apply ram_load_never_exits in H |].
  revert H. apply for_loop_never_exits. intros j u H. unfold draw_pixel in H.
  destruct (Z.land row (Z.shiftr 128 j) =? 0); [discriminate H |].
  apply bind_exit in H as [H | (d & _ & H)].
  - unfold display_load in H. now destruct (in_grid (y + i) (x + j)).
  - now apply display_store_never_exits in H.
Qed.

Lemma clear_display_never_exits (s : chip8) (o : Z) : clear_display s <> Exit o.
Proof.
  unfold clear_display. apply for_loop_never_exits. intros i t.
  apply for_loop_never_exits. intros j u. apply display_store_never_exits.
Qed.

Lemma step_exit_stubbed (keys : list Z) (rnd : Z) (s : chip8) (o : Z) :
  chip8_execute_instruction keys rnd s = Exit o ->
  chip8_current_opcode s = Ok o /\ stubbed o.
Proof.
  intros Hstep. unfold chip8_execute_instruction in Hstep.
  apply bind_exit in Hstep as [H | (opcode & Hfetch & Hstep)];
    [now apply chip8_current_opcode_never_exits in H |].
  cbv zeta in Hstep. unfold stubbed.
  case_eqb.
  { unfold exec_0 in Hstep. case_eqb.
    - apply bind_exit in Hstep as [H | (t & _ & H)];
        [now apply clear_display_never_exits in H | discriminate H].
    - case_eqb; [| discriminate Hstep].
      apply bind_exit in Hstep as [H | (a & _ & H)]; [| discriminate H].
      unfold stack_load in H. now destruct (in_range _ _). }
  case_eqb; [discriminate Hstep |].
  case_eqb.
  { unfold exec_call in Hstep.
    apply bind_exit in Hstep as [H | (a & _ & H)]; [| discriminate H].
    unfold stack_store in H. now destruct (in_range _ _). }
  case_eqb; [discriminate Hstep |].
  case_eqb; [discriminate Hstep |].
  case_eqb; [injection Hstep as <-; auto |].
  case_eqb; [discriminate Hstep |].
  case_eqb; [discriminate Hstep |].
  case_eqb.
  { unfold exec_8 in Hstep. cbv zeta in Hstep. case_eqb; [discriminate Hstep |].
    destruct (_ || _) eqn:Hn in Hstep; [| discriminate Hstep].
    injection Hstep as <-. split; [assumption |]. right. right. left.
    split; [assumption |].
    repeat (apply orb_true_iff in Hn as [Hn | Hn]); apply Z.eqb_eq in Hn; lia. }
  case_eqb; [discriminate Hstep |].
  case_eqb; [discriminate Hstep |].
  case_eqb; [injection Hstep as <-; auto |].
  case_eqb; [discriminate Hstep |].
  case_eqb.
  { apply bind_exit in Hstep as [H | (t & _ & H)];
      [now apply chip8_sprite_draw_never_exits in H | discriminate H]. }
  case_eqb.
  { unfold exec_e in Hstep. case_eqb; [| case_eqb; [| discriminate Hstep]].
    - apply bind_exit in Hstep as [H | (k & _ & H)]; [| discriminate H].
      unfold keys_load in H. now destruct (in_range _ _).
    - apply bind_exit in Hstep as [H | (k & _ & H)]; [| discriminate H].
      unfold keys_load in H. now destruct (in_range _ _). }
  case_eqb; [| discriminate Hstep].
  unfold exec_f in Hstep. cbv zeta in Hstep.
  case_eqb; [discriminate Hstep |].
  case_eqb; [destruct (first_key _ _ _) in Hstep; discriminate Hstep |].
  case_eqb; [discriminate Hstep |].
  case_eqb; [injection Hstep as <-; auto 6 |].
  case_eqb; [discriminate Hstep |].
  case_eqb; [discriminate Hstep |].
  case_eqb.
  { apply bind_exit in Hstep as [H | (s1 & _ & Hstep)];
      [now apply ram_store_never_exits in H |].
    apply bind_exit in Hstep as [H | (s2 & _ & Hstep)];
      [now apply ram_store_never_exits in H |].
    apply bind_exit in Hstep as [H | (s3 & _ & Hstep)];
      [now apply ram_store_never_exits in H | discriminate Hstep]. }
  case_eqb.
  { apply bind_exit in Hstep as [H | (s1 & _ & Hstep)]; [| discriminate Hstep].
    exfalso. revert H. apply for_loop_never_exits. intros k t.
    apply ram_store_never_exits. }
  case_eqb; [| discriminate Hstep].
  apply bind_exit in Hstep as [H | (s1 & _ & Hstep)]; [| discriminate Hstep].
  exfalso. revert H. apply for_loop_never_exits. intros k t H.
  apply bind_exit in H as [H | (b & _ & H)];
    [now apply ram_load_never_exits in H | discriminate H].
Qed.

(** X5: a cycle leaves through [unimplemented_instruction] exactly when
    the opcode fetched is 5xxx, Bxxx, 8xy1..8xy7, 8xyE or Fx18, and the
    opcode reported is the one fetched; nothing else stops a run in this
    way. *)
Theorem exit_iff_stubbed (keys : list Z) (rnd : Z) (s : chip8) (o : Z) :
  chip8_execute_instruction keys rnd s = Exit o
  <-> chip8_current_opcode s = Ok o /\ stubbed o.
Proof.
  split.
  - apply step_exit_stubbed.
  - intros (Hfetch & Hstub). now apply stubbed_opcode_exits.
Qed.

Lemma exit_iff_stubbed_witness :
  chip8_execute_instruction no_keys 0 (boot [0x80; 0x14]) = Exit 0x8014.
Proof.
  apply (proj2 (exit_iff_stubbed no_keys 0 (boot [0x80; 0x14]) 0x8014)).
  split; [reflexivity |]. right. right. left. vm_compute.
  split; [reflexivity |]. left. split; discriminate.
Defined.

(** ** Sizes, ranges and timers along a run *)

Lemma is_u8_u8 (z : Z) : is_u8 (u8 z).
Proof. unfold is_u8, u8. apply Z.mod_pos_bound. lia. Qed.

Lemma is_u16_u16 (z : Z) : is_u16 (u16 z).
Proof. unfold is_u16, u16. apply Z.mod_pos_bound. lia. Qed.

Lemma is_u32_u32 (z : Z) : is_u32 (u32 z).
Proof. unfold is_u32, u32. apply Z.mod_pos_bound. lia. Qed.

Lemma well_formed_reg (s : chip8) (x : Z) :
  well_formed s -> 0 <= x < CHIP8_REGISTER_COUNT -> is_u8 (reg s x).
Proof.
  intros Hwf Hx. unfold reg, get, CHIP8_REGISTER_COUNT in *.
  apply (Forall_lookup_total_1 is_u8); [apply Hwf |].
  rewrite (wf_v_length s Hwf). unfold CHIP8_REGISTER_COUNT. lia.
Qed.

Lemma well_formed_set_pc (x : Z) (s : chip8) :
  is_u16 x -> well_formed s -> well_formed (set_pc x s).
Proof. intros Hx []. now constructor. Qed.

Lemma well_formed_set_I (x : Z) (s : chip8) :
  is_u16 x -> well_formed s -> well_formed (set_I x s).
Proof. intros Hx []. now constructor. Qed.

Lemma well_formed_set_sp (x : Z) (s : chip8) :
  is_u8 x -> well_formed s -> well_formed (set_sp x s).
Proof. intros Hx []. now constructor. Qed.

Lemma well_formed_set_delay (x : Z) (s : chip8) :
  is_u8 x -> well_formed s -> well_formed (set_delay x s).
Proof. intros Hx []. now constructor. Qed.

Lemma well_formed_set_reg (x b : Z) (s : chip8) :
  well_formed s -> well_formed (set_reg x b s).
Proof.
  intros []. constructor; cbn [pc ram v delay sound I sp stack display set_reg set_v];
    try assumption.
  - unfold put. now rewrite length_insert.
  - apply Forall_insert; [assumption | apply is_u8_u8].
Qed.

Lemma kept_refl (s : chip8) : kept s s.
Proof. unfold kept. auto. Qed.

Lemma kept_trans (s t u : chip8) : kept s t -> kept t u -> kept s u.
Proof. unfold kept. intros (-> & -> & H) (-> & -> & K). auto. Qed.

Lemma kept_add_pc (k : Z) (s t : chip8) : kept s t -> kept s (add_pc k t).
Proof.
  intros (Hs & Hd & Hwf). split; [exact Hs |]. split; [exact Hd |].
  intros H. apply well_formed_set_pc; [apply is_u16_u16 | auto].
Qed.

Lemma kept_set_reg (x b : Z) (s t : chip8) : kept s t -> kept s (set_reg x b t).
Proof.
  intros (Hs & Hd & Hwf). split; [exact Hs |]. split; [exact Hd |].
  intros H. apply well_formed_set_reg. auto.
Qed.

Lemma kept_set_I (x : Z) (s t : chip8) : is_u16 x -> kept s t -> kept s (set_I x t).
Proof.
  intros Hx (Hs & Hd & Hwf). split; [exact Hs |]. split; [exact Hd |].
  intros H. apply well_formed_set_I; auto.
Qed.

Lemma ram_store_kept (i x : Z) (s s' : chip8) : ram_store i x s = Ok s' -> kept s s'.
Proof.
  unfold ram_store. destruct (in_range i CHIP8_RAM_CAPACITY); [| discriminate].
  intros [= <-]. split; [reflexivity |]. split; [reflexivity |].
  intros []. constructor; cbn [pc ram v delay sound I sp stack display set_ram];
    try assumption.
  - unfold put. now rewrite length_insert.
  - apply Forall_insert; [assumption | apply is_u8_u8].
Qed.

Lemma stack_store_kept (i x : Z) (s s' : chip8) : stack_store i x s = Ok s' -> kept s s'.
Proof.
  unfold stack_store. destruct (in_range i CHIP8_STACK_CAPACITY); [| discriminate].
  intros [= <-]. split; [reflexivity |]. split; [reflexivity |].
  intros []. constructor; cbn [pc ram v delay sound I sp stack display set_stack];
    try assumption.
  - unfold put. now rewrite length_insert.
  - apply Forall_insert; [assumption | apply is_u16_u16].
Qed.

Lemma display_store_kept (r c x : Z) (s s' : chip8) :
  display_store r c x s = Ok s' -> kept s s'.
Proof.
  unfold display_store. destruct (in_grid r c) eqn:Hin; [| discriminate].
  apply in_grid_true in Hin. intros [= <-].
  split; [reflexivity |]. split; [reflexivity |].
  intros [Hpc Hrl Hr Hvl Hv Hd Hs HI Hsp Hsl Hst Hshape Hdisp].
  constructor; cbn [pc ram v delay sound I sp stack display set_display];
    try assumption.
  - now apply display_shape_insert.
  - apply Forall_insert; [assumption |]. unfold put.
    apply Forall_insert; [| apply is_u32_u32].
    apply (Forall_lookup_total_1 (Forall is_u32)); [assumption |].
    destruct Hshape as (Hlen & _). rewrite Hlen.
    unfold CHIP8_DISPLAY_HEIGHT in *. lia.
Qed.

Lemma draw_pixel_kept (x y i row j : Z) (s s' : chip8) :
  draw_pixel x y i row j s = Ok s' -> kept s s'.
Proof.
  unfold draw_pixel. destruct (Z.land row (Z.shiftr 128 j) =? 0).
  - intros [= <-]. apply kept_refl.
  - intros H. apply bind_ok in H as (d & _ & H). apply display_store_kept in H.
    destruct (d =? 0); [exact H |].
    apply (kept_trans s (set_reg 0xf 1 s)); [apply kept_set_reg, kept_refl | exact H].
Qed.

Lemma chip8_sprite_draw_kept (x y n : Z) (s s' : chip8) :
  chip8_sprite_draw x y n s = Ok s' -> kept s s'.
Proof.
  unfold chip8_sprite_draw. apply for_loop_invariant; [| apply kept_set_reg, kept_refl].
  intros i t t' _ Ht. unfold draw_row. intros H.
  apply bind_ok in H as (row & _ & H). revert H.
  apply for_loop_invariant; [| exact Ht].
  intros j u u' _ Hu Hpix. apply (kept_trans s u u'); [exact Hu |].
  now apply draw_pixel_kept in Hpix.
Qed.

Lemma clear_display_kept (s s' : chip8) : clear_display s = Ok s' -> kept s s'.
Proof.
  unfold clear_display. apply for_loop_invariant; [| apply kept_refl].
  intros i t t' _ Ht. apply for_loop_invariant; [| exact Ht].
  intros j u u' _ Hu Hst. apply (kept_trans s u u'); [exact Hu |].
  now apply display_store_kept in Hst.
Qed.

(** A completed cycle keeps the sound timer and well-formedness, and the
    delay timer unless the opcode is Fx15. *)
Lemma step_kept (keys : list Z) (rnd : Z) (s s' : chip8) (opcode : Z) :
  chip8_current_opcode s = Ok opcode ->
  chip8_execute_instruction keys rnd s = Ok s' ->
  sound s' = sound s /\
  (well_formed s -> well_formed s') /\
  (delay s' = delay s \/ (sets_delay opcode /\ delay s' = reg s (op_x opcode))).
Proof.
  intros Hfetch Hstep. unfold chip8_execute_instruction in Hstep.
  rewrite Hfetch in Hstep. cbn [bind] in Hstep. cbv zeta in Hstep.
  pose proof (op_nnn_range opcode) as Hnnn. pose proof (op_x_range opcode) as Hx.
  assert (forall t, kept s t -> Ok t = Ok s' ->
            sound s' = sound s /\ (well_formed s -> well_formed s') /\
            (delay s' = delay s \/ (sets_delay opcode /\ delay s' = reg s (op_x opcode))))
    as Hdone.
  { intros t (Hs & Hd & Hwf) [= <-]. auto. }
  pose proof (kept_refl s) as Hrefl.
  case_eqb.
  { unfold exec_0 in Hstep. case_eqb.
    - apply bind_ok in Hstep as (t & Hclr & Hstep). apply clear_display_kept in Hclr.
      apply (Hdone (add_pc 2 t)); [now apply kept_add_pc | exact Hstep].
    - case_eqb; [| now apply (Hdone s)].
      unfold stack_load in Hstep. cbn [sp set_sp stack] in Hstep.
      destruct (in_range (u8 (sp s - 1)) CHIP8_STACK_CAPACITY) eqn:Hin;
        [| discriminate Hstep].
      cbn [bind] in Hstep. apply in_range_true in Hin.
      apply (Hdone (add_pc 2 (set_pc (get (stack s) (u8 (sp s - 1)))
                                (set_sp (u8 (sp s - 1)) s)))); [| exact Hstep].
      apply kept_add_pc. split; [reflexivity |]. split; [reflexivity |]. intros Hwf.
      apply well_formed_set_pc; [| apply well_formed_set_sp; [apply is_u8_u8 | exact Hwf]].
      unfold get. apply (Forall_lookup_total_1 is_u16); [apply Hwf |].
      rewrite (wf_stack_length s Hwf). unfold CHIP8_STACK_CAPACITY in *. lia. }
  case_eqb.
  { apply (Hdone (set_pc (op_nnn opcode) s)); [| exact Hstep].
    split; [reflexivity |]. split; [reflexivity |]. intros Hwf.
    apply well_formed_set_pc; [unfold is_u16; lia | exact Hwf]. }
  case_eqb.
  { unfold exec_call in Hstep. apply bind_ok in Hstep as (s1 & Hst & Hstep).
    apply stack_store_kept in Hst as (Hs1 & Hd1 & Hwf1).
    apply (Hdone (set_pc (op_nnn opcode) (set_sp (u8 (sp s + 1)) s1))); [| exact Hstep].
    split; [exact Hs1 |]. split; [exact Hd1 |]. intros Hwf.
    apply well_formed_set_pc; [unfold is_u16; lia |].
    apply well_formed_set_sp; [apply is_u8_u8 | auto]. }
  case_eqb.
  { unfold skip_if in Hstep. destruct (reg s (op_x opcode) =? op_nn opcode);
      (eapply Hdone; [| exact Hstep]); now apply kept_add_pc. }
  case_eqb.
  { unfold skip_if in Hstep. destruct (negb (reg s (op_x opcode) =? op_nn opcode));
      (eapply Hdone; [| exact Hstep]); now apply kept_add_pc. }
  case_eqb; [discriminate Hstep |].
  case_eqb.
  { eapply Hdone; [| exact Hstep]. now apply kept_add_pc, kept_set_reg. }
  case_eqb.
  { eapply Hdone; [| exact Hstep]. now apply kept_add_pc, kept_set_reg. }
  case_eqb.
  { unfold exec_8 in Hstep. cbv zeta in Hstep. case_eqb.
    - eapply Hdone; [| exact Hstep]. now apply kept_add_pc, kept_set_reg.
    - destruct (_ || _) in Hstep; [discriminate Hstep | now apply (Hdone s)]. }
  case_eqb.
  { unfold skip_if in Hstep.
    destruct (negb (reg s (op_x opcode) =? reg s (op_y opcode)));
      (eapply Hdone; [| exact Hstep]); now apply kept_add_pc. }
  case_eqb.
  { eapply Hdone; [| exact Hstep]. apply kept_add_pc, kept_set_I; [| exact Hrefl].
    unfold is_u16. lia. }
  case_eqb; [discriminate Hstep |].
  case_eqb.
  { eapply Hdone; [| exact Hstep]. now apply kept_add_pc, kept_set_reg. }
  case_eqb.
  { apply bind_ok in Hstep as (t & Hdraw & Hstep). apply chip8_sprite_draw_kept in Hdraw.
    eapply Hdone; [| exact Hstep]. now apply kept_add_pc. }
  case_eqb.
  { unfold exec_e in Hstep. case_eqb; [| case_eqb; [| now apply (Hdone s)]].
    - apply bind_ok in Hstep as (k & _ & Hstep). unfold skip_if in Hstep.
      destruct (k =? 1); (eapply Hdone; [| exact Hstep]); now apply kept_add_pc.
    - apply bind_ok in Hstep as (k & _ & Hstep). unfold skip_if in Hstep.
      destruct (k =? 0); (eapply Hdone; [| exact Hstep]); now apply kept_add_pc. }
  case_eqb; [| now apply (Hdone s)].
  unfold exec_f in Hstep. cbv zeta in Hstep.
  case_eqb.
  { eapply Hdone; [| exact Hstep]. now apply kept_add_pc, kept_set_reg. }
  case_eqb.
  { destruct (first_key keys _ 0) as [k |]; [| now apply (Hdone s)].
    eapply Hdone; [| exact Hstep]. now apply kept_add_pc, kept_set_reg. }
  case_eqb.
  { injection Hstep as <-. split; [reflexivity |]. split.
    - intros Hwf. apply well_formed_set_pc; [apply is_u16_u16 |].
      apply well_formed_set_delay; [| exact Hwf]. now apply well_formed_reg.
    - right. split; [now split | reflexivity]. }
  case_eqb; [discriminate Hstep |].
  case_eqb.
  { eapply Hdone; [| exact Hstep].
    apply kept_add_pc, kept_set_I; [apply is_u16_u16 | exact Hrefl]. }
  case_eqb.
  { eapply Hdone; [| exact Hstep].
    apply kept_add_pc, kept_set_I; [apply is_u16_u16 | exact Hrefl]. }
  case_eqb.
  { apply bind_ok in Hstep as (s1 & H1 & Hstep).
    apply bind_ok in Hstep as (s2 & H2 & Hstep).
    apply bind_ok in Hstep as (s3 & H3 & Hstep).
    apply ram_store_kept in H1, H2, H3.
    eapply Hdone; [| exact Hstep]. apply kept_add_pc.
    apply (kept_trans s s1); [assumption |]. now apply (kept_trans s1 s2). }
  case_eqb.
  { apply bind_ok in Hstep as (s1 & Hloop & Hstep).
    assert (kept s s1) as Hs1.
    { revert Hloop. apply for_loop_invariant; [| exact Hrefl].
      intros k t t' _ Ht Hst. apply (kept_trans s t t'); [exact Ht |].
      now apply ram_store_kept in Hst. }
    eapply Hdone; [| exact Hstep].
    apply kept_add_pc, kept_set_I; [apply is_u16_u16 | exact Hs1]. }
  case_eqb; [| now apply (Hdone s)].
  apply bind_ok in Hstep as (s1 & Hloop & Hstep).
  assert (kept s s1) as Hs1.
  { revert Hloop. apply for_loop_invariant; [| exact Hrefl].
    intros k t t' _ Ht Hst. apply bind_ok in Hst as (b & _ & Hst).
    injection Hst as <-. now apply kept_set_reg. }
  eapply Hdone; [| exact Hstep].
  apply kept_add_pc, kept_set_I; [apply is_u16_u16 | exact Hs1].
Qed.

Lemma reset_ram : ram reset = (chip8_numbers ++ replicate 432 0) ++ replicate 3584 0.
Proof. vm_compute. reflexivity. Qed.

Lemma loaded_state_facts (image : list byte) (st s0 : chip8) :
  chip8_init (Some image) st = (InitDone, s0) ->
  (length image <= 3584)%nat /\
  ram s0 = chip8_numbers ++ replicate 432 0 ++ map byte_val image
           ++ replicate (3584 - length image) 0 /\
  pc s0 = CHIP8_RAM_ENTRYPOINT /\ I s0 = 0 /\ sp s0 = 0 /\ delay s0 = 0 /\ sound s0 = 0 /\
  v s0 = replicate 16 0 /\ stack s0 = replicate 16 0 /\
  display s0 = replicate 32 (replicate 64 0).
Proof.
  rewrite chip8_init_cases.
  destruct (Z.gtb_spec (Z.of_nat (length image)) (CHIP8_RAM_CAPACITY - CHIP8_RAM_ENTRYPOINT))
    as [Hbig | Hfits]; [discriminate |].
  unfold CHIP8_RAM_CAPACITY, CHIP8_RAM_ENTRYPOINT in Hfits.
  intros [= <-]. split; [lia |].
  assert (forall s, ram s = chip8_numbers ++ replicate 432 0 ++ map byte_val image
                            ++ replicate (3584 - length image) 0 ->
                    pc s = pc reset -> I s = I reset -> sp s = sp reset ->
                    delay s = delay reset -> sound s = sound reset -> v s = v reset ->
                    stack s = stack reset -> display s = display reset ->
                    ram s = chip8_numbers ++ replicate 432 0 ++ map byte_val image
                            ++ replicate (3584 - length image) 0 /\
                    pc s = CHIP8_RAM_ENTRYPOINT /\ I s = 0 /\ sp s = 0 /\ delay s = 0 /\
                    sound s = 0 /\ v s = replicate 16 0 /\ stack s = replicate 16 0 /\
                    display s = replicate 32 (replicate 64 0)) as Hfields.
  { intros s -> -> -> -> -> -> -> -> ->. repeat split. }
  assert (ram (set_ram (blit (Z.to_nat CHIP8_RAM_ENTRYPOINT) (map byte_val image) (ram reset))
                 reset)
          = chip8_numbers ++ replicate 432 0 ++ map byte_val image
            ++ replicate (3584 - length image) 0) as Hblit.
  { cbn [ram set_ram]. unfold blit. rewrite reset_ram, length_map.
    change (Z.to_nat CHIP8_RAM_ENTRYPOINT) with (length (chip8_numbers ++ replicate 432 0)).
    rewrite take_app_length, drop_app_add, drop_replicate, <- app_assoc. reflexivity. }
  destruct image as [| b image].
  - apply Hfields; reflexivity.
  - now apply Hfields.
Qed.

(** X6: what a load that succeeds leaves: the font in the first 80 bytes
    of ram, the image from 0x200 on, zeros everywhere else, pc at 0x200,
    all registers, both timers, the stack and the display zero. *)
Theorem load_layout (image : list byte) (st s0 : chip8) :
  chip8_init (Some image) st = (InitDone, s0) ->
  (length image <= 3584)%nat /\
  ram s0 = chip8_numbers ++ replicate 432 0 ++ map byte_val image
           ++ replicate (3584 - length image) 0 /\
  pc s0 = CHIP8_RAM_ENTRYPOINT /\ I s0 = 0 /\ sp s0 = 0 /\ delay s0 = 0 /\ sound s0 = 0 /\
  v s0 = replicate 16 0 /\ stack s0 = replicate 16 0 /\
  display s0 = replicate 32 (replicate 64 0).
Proof. apply loaded_state_facts. Qed.

Lemma load_layout_witness :
  exists s0, chip8_init (Some [x12; x34]) zeroed = (InitDone, s0) /\
             get (ram s0) 0x200 = 0x12 /\ get (ram s0) 0x201 = 0x34 /\ pc s0 = 0x200.
Proof.
  exists (boot [0x12; 0x34]).
  destruct (load_layout [x12; x34] zeroed (boot [0x12; 0x34]) eq_refl)
    as (_ & Hram & Hpc & _).
  split; [reflexivity |]. rewrite Hram. split; [reflexivity |]. split; [reflexivity |].
  exact Hpc.
Defined.

Lemma is_u8_byte_val (b : byte) : is_u8 (byte_val b).
Proof.
  unfold is_u8, byte_val. pose proof (Byte.to_N_bounded b). lia.
Qed.

Lemma chip8_numbers_u8 : Forall is_u8 chip8_numbers.
Proof. unfold chip8_numbers, is_u8. repeat constructor; lia. Qed.

Lemma chip8_init_well_formed (image : list byte) (st s0 : chip8) :
  chip8_init (Some image) st = (InitDone, s0) -> well_formed s0.
Proof.
  intros Hinit.
  destruct (loaded_state_facts image st s0 Hinit)
    as (Hlen & Hram & Hpc & HI & Hsp & Hd & Hs & Hv & Hst & Hdisp).
  constructor; rewrite ?Hram, ?Hpc, ?HI, ?Hsp, ?Hd, ?Hs, ?Hv, ?Hst, ?Hdisp.
  - unfold is_u16, CHIP8_RAM_ENTRYPOINT. lia.
  - rewrite !length_app, !length_replicate, length_map.
    change (length chip8_numbers) with 80%nat. unfold CHIP8_RAM_CAPACITY. lia.
  - repeat apply Forall_app_2.
    + exact chip8_numbers_u8.
    + apply Forall_replicate. unfold is_u8. lia.
    + apply Forall_map. apply Forall_forall. intros b _. apply is_u8_byte_val.
    + apply Forall_replicate. unfold is_u8. lia.
  - reflexivity.
  - apply Forall_replicate. unfold is_u8. lia.
  - unfold is_u8. lia.
  - unfold is_u8. lia.
  - unfold is_u16. lia.
  - unfold is_u8. lia.
  - reflexivity.
  - apply Forall_replicate. unfold is_u16. lia.
  - split; [reflexivity |]. apply Forall_replicate. reflexivity.
  - apply Forall_replicate. apply Forall_replicate. unfold is_u32. lia.
Qed.

Lemma run_well_formed (inputs : list (list Z * Z)) (s s' : chip8) :
  well_formed s -> run inputs s = Ok s' -> well_formed s'.
Proof.
  revert s. induction inputs as [| [keys rnd] rest IH]; intros s Hwf Hrun.
  - cbn in Hrun. now injection Hrun as <-.
  - cbn [run] in Hrun. apply bind_ok in Hrun as (t & Hstep & Hrun).
    apply (IH t); [| exact Hrun].
    destruct (step_fetch _ _ _ _ Hstep) as (opcode & Hfetch).
    now apply (step_kept keys rnd s t opcode Hfetch Hstep).
Qed.

(** X7: every state that a run reaches from a loaded rom is well formed:
    the arrays keep their sizes and every byte, register, timer, address,
    stack entry and display cell stays in the range of its C type. *)
Theorem reachable_well_formed
  (image : list byte) (st s0 : chip8) (inputs : list (list Z * Z)) (s : chip8) :
  chip8_init (Some image) st = (InitDone, s0) ->
  run inputs s0 = Ok s ->
  well_formed s.
Proof.
  intros Hinit Hrun.
  apply (run_well_formed inputs s0 s (chip8_init_well_formed image st s0 Hinit) Hrun).
Qed.

Lemma reachable_well_formed_witness :
  exists s,
    chip8_init (Some (map byte_of low_loop_rom)) zeroed = (InitDone, boot low_loop_rom) /\
    run (idle 7) (boot low_loop_rom) = Ok s /\ well_formed s.
Proof.
  assert (chip8_init (Some (map byte_of low_loop_rom)) zeroed = (InitDone, boot low_loop_rom))
    as Hinit by reflexivity.
  destruct (run (idle 7) (boot low_loop_rom)) as [s | |] eqn:Hrun.
  - exists s. split; [exact Hinit |]. split; [reflexivity |].
    exact (reachable_well_formed _ _ _ _ _ Hinit Hrun).
  - vm_compute in Hrun. discriminate Hrun.
  - vm_compute in Hrun. discriminate Hrun.
Defined.

(** X8: no instruction counts a timer down and the main loop does nothing
    but execute instructions: in every run the sound timer keeps its value
    (Fx18 is not implemented), and the delay timer keeps its value as long
    as no Fx15 is executed. *)
Theorem timers_never_count (inputs : list (list Z * Z)) (s s' : chip8) :
  run inputs s = Ok s' ->
  sound s' = sound s /\
  (Forall (fun o => forall opcode, o = Ok opcode -> ~ sets_delay opcode) (fetched inputs s) ->
   delay s' = delay s).
Proof.
  revert s. induction inputs as [| [keys rnd] rest IH]; intros s Hrun.
  - cbn in Hrun. injection Hrun as <-. now split.
  - cbn [run] in Hrun. apply bind_ok in Hrun as (t & Hstep & Hrun).
    destruct (step_fetch _ _ _ _ Hstep) as (opcode & Hfetch).
    destruct (step_kept keys rnd s t opcode Hfetch Hstep) as (Hsound & _ & Hdelay).
    destruct (IH t Hrun) as (Hsound' & Hdelay').
    split; [congruence |]. cbn [fetched]. rewrite Hstep. intros Hno.
    apply Forall_cons_1 in Hno as (Hhere & Hlater).
    rewrite (Hdelay' Hlater).
    destruct Hdelay as [Hsame | (Hset & _)]; [exact Hsame |].
    now destruct (Hhere opcode Hfetch).
Qed.

Lemma timers_never_count_witness :
  exists s',
    run (idle 9) (boot timer_poll_rom) = Ok s' /\
    sound s' = sound (boot timer_poll_rom) /\ delay s' = delay (boot timer_poll_rom).
Proof.
  destruct (run (idle 9) (boot timer_poll_rom)) as [s' | |] eqn:Hrun.
  - exists s'. split; [reflexivity |].
    destruct (timers_never_count (idle 9) (boot timer_poll_rom) s' Hrun) as (Hsound & Hdelay).
    split; [exact Hsound |]. apply Hdelay.
    apply List.Forall_forall. intros o Ho opcode -> (Hf & Hnn).
    vm_compute in Ho.
    repeat (destruct Ho as [Ho | Ho];
            [injection Ho as <-; vm_compute in Hnn; discriminate Hnn |]).
    exact Ho.
  - vm_compute in Hrun. discriminate Hrun.
  - vm_compute in Hrun. discriminate Hrun.
Defined.

Lemma get_nth (l : list Z) (i : Z) (d : Z) :
  0 <= i < Z.of_nat (length l) -> get l i = nth (Z.to_nat i) l d.
Proof.
  intros Hi. unfold get. rewrite nth_lookup.
  rewrite (list_lookup_lookup_total_lt l (Z.to_nat i)) by lia. reflexivity.
Qed.

(** X9: in any state that still has the ram of the load and whose pc is
    at offset [k] of the image, with both bytes inside the image, the
    opcode fetched is made of the bytes [k] and [k + 1] of the rom, the
    first one in the high byte. *)
Theorem fetch_reads_rom (image : list byte) (st s0 s : chip8) (k : Z) :
  chip8_init (Some image) st = (InitDone, s0) ->
  ram s = ram s0 -> pc s = CHIP8_RAM_ENTRYPOINT + k ->
  0 <= k -> k + 1 < Z.of_nat (length image) ->
  chip8_current_opcode s
  = Ok (0x100 * byte_val (nth (Z.to_nat k) image x00)
        + byte_val (nth (Z.to_nat (k + 1)) image x00)).
Proof.
  intros Hinit Hram Hpc Hk Hk1.
  destruct (loaded_state_facts image st s0 Hinit) as (Hlen & Hlayout & _).
  assert (forall j, 0 <= j < Z.of_nat (length image) ->
                    get (ram s) (CHIP8_RAM_ENTRYPOINT + j)
                    = byte_val (nth (Z.to_nat j) image x00)) as Hbyte.
  { intros j Hj. rewrite Hram, Hlayout. unfold get, CHIP8_RAM_ENTRYPOINT.
    rewrite app_assoc.
    rewrite lookup_total_app_r
      by (rewrite length_app, length_replicate; change (length chip8_numbers) with 80%nat; lia).
    rewrite length_app, length_replicate. change (length chip8_numbers) with 80%nat.
    replace (Z.to_nat (512 + j) - (80 + 432))%nat with (Z.to_nat j) by lia.
    rewrite lookup_total_app_l by (rewrite length_map; lia).
    change (map byte_val image !!! Z.to_nat j) with (get (map byte_val image) j).
    rewrite (get_nth _ _ (byte_val x00)) by (rewrite length_map; lia).
    apply map_nth. }
  unfold chip8_current_opcode. rewrite Hpc.
  unfold CHIP8_RAM_ENTRYPOINT, CHIP8_RAM_CAPACITY in *.
  rewrite !ram_load_ok by (unfold CHIP8_RAM_CAPACITY; lia). cbn [bind].
  replace (512 + k + 1) with (512 + (k + 1)) by lia.
  rewrite (Hbyte k), (Hbyte (k + 1)) by lia.
  f_equal. apply big_endian; apply is_u8_byte_val.
Qed.

Lemma fetch_reads_rom_witness :
  chip8_current_opcode (add_pc 2 (boot [0x60; 0x2a; 0xa1; 0x23])) = Ok 0xa123.
Proof.
  apply (fetch_reads_rom (map byte_of [0x60; 0x2a; 0xa1; 0x23]) zeroed
           (boot [0x60; 0x2a; 0xa1; 0x23]) (add_pc 2 (boot [0x60; 0x2a; 0xa1; 0x23])) 2).
  - reflexivity.
  - reflexivity.
  - reflexivity.
  - lia.
  - vm_compute. reflexivity.
Defined.

(** ** 00E0 *)

(** Loops that complete, with an invariant that follows the counter. *)
Lemma for_loop_completes_counted {A : Type} (P : Z -> A -> Prop)
  (body : Z -> A -> outcome A) (n : nat) (i : Z) (a : A) :
  (forall k x, i <= k < i + Z.of_nat n -> P k x ->
               exists x', body k x = Ok x' /\ P (k + 1) x') ->
  P i a -> exists a', for_loop n i body a = Ok a' /\ P (i + Z.of_nat n) a'.
Proof.
  revert i a. induction n as [| n IH]; intros i a Hbody Ha.
  - exists a. rewrite Z.add_0_r. now split.
  - destruct (Hbody i a) as (x & Hx & HPx); [lia | assumption |].
    destruct (IH (i + 1) x) as (a' & Hrun & Ha'); [| assumption |].
    + intros k y Hk. apply Hbody. lia.
    + exists a'. split; [cbn [for_loop]; now rewrite Hx |].
      now replace (i + Z.of_nat (S n)) with (i + 1 + Z.of_nat n) by lia.
Qed.

Lemma only_display_refl (s : chip8) : only_display s s.
Proof. unfold only_display. repeat split. Qed.

(** A display of the right shape whose cells are all zero is [blank]. *)
Lemma blank_unique (d : list (list Z)) :
  display_shape d ->
  (forall r c, in_grid r c = true -> cell d r c = 0) ->
  d = blank.
Proof.
  intros (Hlen & Hrows) Hzero. symmetry. apply replicate_as_Forall.
  split; [assumption |].
  apply (Forall_lookup_total_2 (eq (replicate (Z.to_nat CHIP8_DISPLAY_WIDTH) 0)) d).
  intros r Hr.
  apply replicate_as_Forall. split.
  - now apply (Forall_lookup_total_1 (fun row => length row = Z.to_nat CHIP8_DISPLAY_WIDTH)).
  - apply (Forall_lookup_total_2 (eq 0) (d !!! r)). intros c Hc. symmetry.
    assert (length (d !!! r) = Z.to_nat CHIP8_DISPLAY_WIDTH) as Hw
      by now apply (Forall_lookup_total_1 (fun row => length row = Z.to_nat CHIP8_DISPLAY_WIDTH)).
    specialize (Hzero (Z.of_nat r) (Z.of_nat c)). unfold cell in Hzero.
    rewrite !Nat2Z.id in Hzero. apply Hzero. apply in_grid_true.
    unfold CHIP8_DISPLAY_HEIGHT, CHIP8_DISPLAY_WIDTH in *. lia.
Qed.

Lemma clear_display_blank (s : chip8) :
  display_shape (display s) -> clear_display s = Ok (set_display blank s).
Proof.
  intros Hshape. unfold clear_display.
  destruct (for_loop_completes_counted
              (fun i t => only_display s t /\ display_shape (display t) /\
                          forall r c, 0 <= r < i -> 0 <= c < CHIP8_DISPLAY_WIDTH ->
                                      cell (display t) r c = 0)
              (fun i => for_loop (Z.to_nat CHIP8_DISPLAY_WIDTH) 0
                          (fun j => display_store i j 0))
              (Z.to_nat CHIP8_DISPLAY_HEIGHT) 0 s)
    as (s' & Hrun & Honly & Hshape' & Hzero).
  - intros i t Hi (Honly & Hsh & Hrows).
    destruct (for_loop_completes_counted
                (fun j u => only_display s u /\ display_shape (display u) /\
                            (forall r c, 0 <= r < i -> 0 <= c < CHIP8_DISPLAY_WIDTH ->
                                         cell (display u) r c = 0) /\
                            forall c, 0 <= c < j -> cell (display u) i c = 0)
                (fun j => display_store i j 0) (Z.to_nat CHIP8_DISPLAY_WIDTH) 0 t)
      as (t' & Hrow & Honly' & Hsh' & Hrows' & Hcols').
    + intros j u Hj (Hou & Hsu & Hru & Hcu).
      assert (in_grid i j = true) as Hin
        by (apply in_grid_true; unfold CHIP8_DISPLAY_HEIGHT, CHIP8_DISPLAY_WIDTH in *; lia).
      unfold display_store. rewrite Hin. eexists. split; [reflexivity |].
      cbn [display set_display]. apply in_grid_true in Hin.
      split; [exact Hou |]. split; [now apply display_shape_insert |]. split.
      * intros r c Hr Hc. rewrite cell_insert_other by lia. now apply Hru.
      * intros c Hc. destruct (Z.eq_dec c j) as [-> | Hne].
        -- rewrite cell_insert_same; [reflexivity | assumption | now apply in_grid_true].
        -- rewrite cell_insert_other by lia. apply Hcu. lia.
    + split; [assumption |]. split; [assumption |]. split; [assumption |]. intros c Hc. lia.
    + exists t'. split; [exact Hrow |]. split; [assumption |]. split; [assumption |].
      intros r c Hr Hc. destruct (Z.eq_dec r i) as [-> | Hne].
      * apply Hcols'. unfold CHIP8_DISPLAY_WIDTH in *. lia.
      * apply Hrows'; [lia | assumption].
  - split; [apply only_display_refl |]. split; [assumption |]. intros r c Hr. lia.
  - rewrite Hrun. f_equal.
    assert (display s' = blank) as Hblank.
    { apply blank_unique; [assumption |]. intros r c Hin. apply in_grid_true in Hin.
      apply Hzero; unfold CHIP8_DISPLAY_HEIGHT in *; lia. }
    destruct Honly as (H1 & H2 & H3 & H4 & H5 & H6 & H7 & H8).
    destruct s', s. cbn in *. now subst.
Qed.

(** X10: 00E0 always completes on a display of the right shape, whatever
    the cells hold: afterwards every cell is 0, pc has moved on by 2 and
    nothing else has changed. *)
Theorem clear_screen (keys : list Z) (rnd : Z) (s : chip8) (opcode : Z) :
  chip8_current_opcode s = Ok opcode ->
  op_family opcode = 0x0000 -> op_nn opcode = 0xe0 ->
  display_shape (display s) ->
  chip8_execute_instruction keys rnd s = Ok (add_pc 2 (set_display blank s))
  /\ forall r c, in_grid r c = true -> cell blank r c = 0.
Proof.
  intros Hfetch Hf Hnn Hshape. split.
  - dispatch Hfetch Hf. unfold exec_0. rewrite Hnn.
    cbv beta iota delta [Z.eqb Pos.eqb]. now rewrite clear_display_blank.
  - intros r c Hin. apply in_grid_true in Hin. unfold cell, blank.
    rewrite !lookup_total_replicate_2; [reflexivity | lia | lia].
Qed.

Lemma clear_screen_witness :
  let s := set_display (replicate 32 (replicate 64 0xffffffff)) (boot [0x00; 0xe0]) in
  chip8_execute_instruction no_keys 0 s = Ok (add_pc 2 (set_display blank s)).
Proof.
  intros s. apply (clear_screen no_keys 0 s 0x00e0); try reflexivity.
  split; [reflexivity |]. apply Forall_replicate. reflexivity.
Defined.

(** ** Fx33 *)

Lemma ram_store_ok (i x : Z) (s : chip8) :
  0 <= i < CHIP8_RAM_CAPACITY ->
  ram_store i x s = Ok (set_ram (put (ram s) i (u8 x)) s).
Proof.
  intros Hi. unfold ram_store. now rewrite (proj2 (in_range_true _ _) Hi).
Qed.

Lemma ram_store_undefined (i x : Z) (s : chip8) :
  (i < 0 \/ CHIP8_RAM_CAPACITY <= i) -> ram_store i x s = Undefined (RamAt i).
Proof.
  intros Hi. unfold ram_store. now rewrite (proj2 (in_range_false _ _) Hi).
Qed.

(** X11: Fx33 with the three bytes at [I] inside ram stores the decimal
    digits of V[x], hundreds first: each byte is a digit, together they
    give V[x] back, no other byte of ram changes, and only pc moves.  With
    [I + 2] outside ram nothing is checked and ram is indexed outside its
    bounds. *)
Theorem bcd_digits (keys : list Z) (rnd : Z) (s : chip8) (opcode : Z) :
  chip8_current_opcode s = Ok opcode ->
  op_family opcode = 0xf000 -> op_nn opcode = 0x33 ->
  length (ram s) = Z.to_nat CHIP8_RAM_CAPACITY ->
  is_u8 (reg s (op_x opcode)) -> 0 <= I s ->
  (I s + 2 < CHIP8_RAM_CAPACITY ->
   exists s',
     chip8_execute_instruction keys rnd s = Ok s' /\
     0 <= get (ram s') (I s) <= 2 /\
     0 <= get (ram s') (I s + 1) <= 9 /\
     0 <= get (ram s') (I s + 2) <= 9 /\
     100 * get (ram s') (I s) + 10 * get (ram s') (I s + 1) + get (ram s') (I s + 2)
     = reg s (op_x opcode) /\
     (forall a, 0 <= a -> a < I s \/ I s + 2 < a -> get (ram s') a = get (ram s) a) /\
     pc s' = u16 (pc s + 2) /\ v s' = v s /\ I s' = I s)
  /\
  (CHIP8_RAM_CAPACITY <= I s + 2 ->
   exists a, CHIP8_RAM_CAPACITY <= a <= I s + 2 /\
             chip8_execute_instruction keys rnd s = Undefined (RamAt a)).
Proof.
  intros Hfetch Hf Hnn Hlen Hreg HI. unfold is_u8, CHIP8_RAM_CAPACITY in *.
  set (b := reg s (op_x opcode)) in *.
  assert (0 <= b / 100 <= 2) as Hh.
  { assert (0 <= b / 100) by (apply Z.div_pos; lia).
    assert (b / 100 < 3) by (apply Z.div_lt_upper_bound; lia). lia. }
  assert (0 <= (b / 10) mod 10 <= 9) as Ht by (pose proof (Z.mod_pos_bound (b / 10) 10); lia).
  assert (0 <= b mod 10 <= 9) as Ho by (pose proof (Z.mod_pos_bound b 10); lia).
  assert (100 * (b / 100) + 10 * ((b / 10) mod 10) + b mod 10 = b) as Hsum.
  { pose proof (Z.div_mod b 10). pose proof (Z.div_mod (b / 10) 10).
    replace (b / 100) with (b / 10 / 10) by (rewrite Z.div_div; [reflexivity | lia | lia]).
    lia. }
  split.
  - intros Hin. dispatch Hfetch Hf. unfold exec_f. cbv zeta. rewrite Hnn.
    cbv beta iota delta [Z.eqb Pos.eqb]. fold b.
    rewrite ram_store_ok by (unfold CHIP8_RAM_CAPACITY; lia). cbn [bind I set_ram].
    rewrite ram_store_ok by (unfold CHIP8_RAM_CAPACITY; lia). cbn [bind I set_ram].
    rewrite ram_store_ok by (unfold CHIP8_RAM_CAPACITY; lia). cbn [bind I set_ram ram].
    eexists. split; [reflexivity |]. cbn [ram pc v I add_pc set_pc set_ram].
    rewrite !u8_small by lia.
    assert (forall l i x, length (put l i x) = length l) as Hput
      by (intros; unfold put; apply length_insert).
    rewrite (get_put_other _ (I s + 2) (I s)) by lia.
    rewrite (get_put_other _ (I s + 1) (I s)) by lia.
    rewrite (get_put _ (I s)) by lia.
    rewrite (get_put_other _ (I s + 2) (I s + 1)) by lia.
    rewrite (get_put _ (I s + 1)) by (rewrite Hput; lia).
    rewrite (get_put _ (I s + 2)) by (rewrite !Hput; lia).
    repeat split; try lia.
    intros a Ha Hout. rewrite !get_put_other by lia. reflexivity.
  - intros Hout. dispatch Hfetch Hf. unfold exec_f. cbv zeta. rewrite Hnn.
    cbv beta iota delta [Z.eqb Pos.eqb]. fold b.
    destruct (Z.ltb_spec (I s) 4096) as [H0 | H0].
    + rewrite ram_store_ok by (unfold CHIP8_RAM_CAPACITY; lia). cbn [bind I set_ram].
      destruct (Z.ltb_spec (I s + 1) 4096) as [H1 | H1].
      * rewrite ram_store_ok by (unfold CHIP8_RAM_CAPACITY; lia). cbn [bind I set_ram].
        rewrite ram_store_undefined by (unfold CHIP8_RAM_CAPACITY; lia).
        exists (I s + 2). split; [lia | reflexivity].
      * rewrite ram_store_undefined by (unfold CHIP8_RAM_CAPACITY; lia).
        exists (I s + 1). split; [lia | reflexivity].
    + rewrite ram_store_undefined by (unfold CHIP8_RAM_CAPACITY; lia).
      exists (I s). split; [lia | reflexivity].
Qed.

Lemma bcd_digits_witness :
  let s := set_I 0x300 (set_reg 3 229 (boot [0xf3; 0x33])) in
  exists s',
    chip8_execute_instruction no_keys 0 s = Ok s' /\
    100 * get (ram s') 0x300 + 10 * get (ram s') 0x301 + get (ram s') 0x302 = 229.
Proof.
  intros s.
  destruct (bcd_digits no_keys 0 s 0xf333) as ((s' & Hstep & _ & _ & _ & Hsum & _) & _).
  - reflexivity.
  - reflexivity.
  - reflexivity.
  - reflexivity.
  - vm_compute. split; [discriminate | reflexivity].
  - vm_compute. discriminate.
  - vm_compute. reflexivity.
  - exists s'. split; [exact Hstep | exact Hsum].
Defined.

(** ** Fx55 and Fx65 *)

Lemma put_length (l : list Z) (i x : Z) : length (put l i x) = length l.
Proof. unfold put. apply length_insert. Qed.

(** The loop of Fx55 over [n] registers. *)
Lemma save_loop (s : chip8) (n : nat) :
  0 <= I s -> I s + Z.of_nat n <= CHIP8_RAM_CAPACITY ->
  length (ram s) = Z.to_nat CHIP8_RAM_CAPACITY ->
  exists s1,
    for_loop n 0 (fun i t => ram_store (I t + i) (reg t i) t) s = Ok s1 /\
    only_ram s s1 /\ length (ram s1) = length (ram s) /\
    (forall i, 0 <= i < Z.of_nat n -> get (ram s1) (I s + i) = u8 (reg s i)) /\
    (forall a, 0 <= a -> a < I s \/ I s + Z.of_nat n <= a -> get (ram s1) a = get (ram s) a).
Proof.
  intros HI Hfit Hlen.
  destruct (for_loop_completes_counted
              (fun k t => only_ram s t /\ length (ram t) = length (ram s) /\
                          (forall i, 0 <= i < k -> get (ram t) (I s + i) = u8 (reg s i)) /\
                          (forall a, 0 <= a -> a < I s \/ I s + k <= a ->
                                     get (ram t) a = get (ram s) a))
              (fun i t => ram_store (I t + i) (reg t i) t) n 0 s)
    as (s1 & Hrun & Hs1).
  - intros k t Hk (Honly & Hlt & Hdone & Hrest).
    destruct Honly as (Hpc & Hv & Hd & Hs & HIt & Hsp & Hst & Hdisp).
    rewrite ram_store_ok by (rewrite HIt; lia). eexists. split; [reflexivity |].
    cbn [ram set_ram]. split; [now repeat split |].
    split; [now rewrite put_length |]. rewrite HIt. unfold reg. rewrite Hv. split.
    + intros i Hi. destruct (Z.eq_dec i k) as [-> | Hne].
      * apply get_put. rewrite Hlt, Hlen. unfold CHIP8_RAM_CAPACITY in *. lia.
      * rewrite get_put_other by lia. apply Hdone. lia.
    + intros a Ha Hout. rewrite get_put_other by lia. apply Hrest; lia.
  - split; [now repeat split |]. split; [reflexivity |].
    split; [intros i Hi; lia | reflexivity].
  - exists s1. split; [exact Hrun |]. exact Hs1.
Qed.

(** The loop of Fx65 over [n] registers. *)
Lemma load_loop (s : chip8) (n : nat) :
  0 <= I s -> I s + Z.of_nat n <= CHIP8_RAM_CAPACITY ->
  length (v s) = Z.to_nat CHIP8_REGISTER_COUNT -> Z.of_nat n <= CHIP8_REGISTER_COUNT ->
  exists s1,
    for_loop n 0 (fun i t => b <- ram_load t (I t + i) ;; Ok (set_reg i b t)) s = Ok s1 /\
    only_v s s1 /\ length (v s1) = length (v s) /\
    (forall i, 0 <= i < Z.of_nat n -> reg s1 i = u8 (get (ram s) (I s + i))) /\
    (forall r, Z.of_nat n <= r -> reg s1 r = reg s r).
Proof.
  intros HI Hfit Hlen Hn.
  destruct (for_loop_completes_counted
              (fun k t => only_v s t /\ length (v t) = length (v s) /\
                          (forall i, 0 <= i < k -> reg t i = u8 (get (ram s) (I s + i))) /\
                          (forall r, k <= r -> reg t r = reg s r))
              (fun i t => b <- ram_load t (I t + i) ;; Ok (set_reg i b t)) n 0 s)
    as (s1 & Hrun & Hs1).
  - intros k t Hk (Honly & Hlt & Hdone & Hrest).
    destruct Honly as (Hpc & Hram & Hd & Hs & HIt & Hsp & Hst & Hdisp).
    rewrite ram_load_ok by (rewrite HIt; lia). cbn [bind]. eexists. split; [reflexivity |].
    split; [now repeat split |]. unfold set_reg at 1. cbn [v set_v].
    split; [now rewrite put_length |]. rewrite Hram, HIt. split.
    + intros i Hi. destruct (Z.eq_dec i k) as [-> | Hne].
      * apply reg_set_reg. rewrite Hlt, Hlen. unfold CHIP8_REGISTER_COUNT in *. lia.
      * rewrite reg_set_reg_other by lia. apply Hdone. lia.
    + intros r Hr. rewrite reg_set_reg_other by lia. apply Hrest. lia.
  - split; [now repeat split |]. split; [reflexivity |].
    split; [intros i Hi; lia | reflexivity].
  - exists s1. split; [exact Hrun |]. exact Hs1.
Qed.

Lemma save_step (keys : list Z) (rnd : Z) (s : chip8) (opcode : Z) :
  chip8_current_opcode s = Ok opcode ->
  op_family opcode = 0xf000 -> op_nn opcode = 0x55 ->
  length (ram s) = Z.to_nat CHIP8_RAM_CAPACITY ->
  0 <= I s -> I s + op_x opcode < CHIP8_RAM_CAPACITY ->
  exists s1,
    chip8_execute_instruction keys rnd s = Ok s1 /\
    (forall i, 0 <= i <= op_x opcode -> get (ram s1) (I s + i) = u8 (reg s i)) /\
    (forall a, 0 <= a -> a < I s \/ I s + op_x opcode < a -> get (ram s1) a = get (ram s) a) /\
    length (ram s1) = length (ram s) /\
    v s1 = v s /\ I s1 = I s + op_x opcode + 1 /\ pc s1 = u16 (pc s + 2).
Proof.
  intros Hfetch Hf Hnn Hlen HI Hfit. pose proof (op_x_range opcode) as Hx.
  unfold CHIP8_REGISTER_COUNT in Hx.
  destruct (save_loop s (Z.to_nat (op_x opcode + 1)))
    as (s1 & Hloop & Honly & Hlen1 & Hsaved & Hrest); [lia | lia | assumption |].
  destruct Honly as (Hpc & Hv & Hd & Hs & HI1 & Hsp & Hst & Hdisp).
  dispatch Hfetch Hf. unfold exec_f. cbv zeta. rewrite Hnn.
  cbv beta iota delta [Z.eqb Pos.eqb]. rewrite Hloop. cbn [bind].
  eexists. split; [reflexivity |]. cbn [ram v I pc add_pc set_pc set_I].
  split; [intros i Hi; apply Hsaved; lia |].
  split; [intros a Ha Hout; apply Hrest; lia |].
  split; [assumption |]. split; [assumption |].
  split; [| now rewrite Hpc].
  rewrite HI1, u16_small by (unfold CHIP8_RAM_CAPACITY in *; lia). lia.
Qed.

Lemma load_step (keys : list Z) (rnd : Z) (s : chip8) (opcode : Z) :
  chip8_current_opcode s = Ok opcode ->
  op_family opcode = 0xf000 -> op_nn opcode = 0x65 ->
  length (v s) = Z.to_nat CHIP8_REGISTER_COUNT ->
  0 <= I s -> I s + op_x opcode < CHIP8_RAM_CAPACITY ->
  exists s1,
    chip8_execute_instruction keys rnd s = Ok s1 /\
    (forall i, 0 <= i <= op_x opcode -> reg s1 i = u8 (get (ram s) (I s + i))) /\
    (forall r, op_x opcode < r -> reg s1 r = reg s r) /\
    ram s1 = ram s /\ I s1 = I s + op_x opcode + 1 /\ pc s1 = u16 (pc s + 2).
Proof.
  intros Hfetch Hf Hnn Hlen HI Hfit. pose proof (op_x_range opcode) as Hx.
  destruct (load_loop s (Z.to_nat (op_x opcode + 1)))
    as (s1 & Hloop & Honly & Hlen1 & Hloaded & Hrest); [lia | lia | assumption | lia |].
  destruct Honly as (Hpc & Hram & Hd & Hs & HI1 & Hsp & Hst & Hdisp).
  dispatch Hfetch Hf. unfold exec_f. cbv zeta. rewrite Hnn.
  cbv beta iota delta [Z.eqb Pos.eqb]. rewrite Hloop. cbn [bind].
  eexists. split; [reflexivity |].
  split; [intros i Hi; apply Hloaded; lia |].
  split; [intros r Hr; apply Hrest; lia |].
  cbn [ram v I pc add_pc set_pc set_I].
  split; [assumption |]. split; [| now rewrite Hpc].
  rewrite HI1, u16_small by (unfold CHIP8_RAM_CAPACITY, CHIP8_REGISTER_COUNT in *; lia). lia.
Qed.

(** X12: Fx55 with [I + x] inside ram stores V0..Vx at [I .. I + x], changes
    no other byte of ram and no register, and leaves I at [I + x + 1]. *)
Theorem save_registers (keys : list Z) (rnd : Z) (s : chip8) (opcode : Z) :
  chip8_current_opcode s = Ok opcode ->
  op_family opcode = 0xf000 -> op_nn opcode = 0x55 ->
  length (ram s) = Z.to_nat CHIP8_RAM_CAPACITY -> Forall is_u8 (v s) ->
  length (v s) = Z.to_nat CHIP8_REGISTER_COUNT ->
  0 <= I s -> I s + op_x opcode < CHIP8_RAM_CAPACITY ->
  exists s1,
    chip8_execute_instruction keys rnd s = Ok s1 /\
    (forall i, 0 <= i <= op_x opcode -> get (ram s1) (I s + i) = reg s i) /\
    (forall a, 0 <= a -> a < I s \/ I s + op_x opcode < a -> get (ram s1) a = get (ram s) a) /\
    v s1 = v s /\ I s1 = I s + op_x opcode + 1 /\ pc s1 = u16 (pc s + 2).
Proof.
  intros Hfetch Hf Hnn Hlen Hv Hvlen HI Hfit. pose proof (op_x_range opcode) as Hx.
  destruct (save_step keys rnd s opcode Hfetch Hf Hnn Hlen HI Hfit)
    as (s1 & Hstep & Hsaved & Hrest & _ & Hv1 & HI1 & Hpc1).
  exists s1. split; [assumption |]. split; [| auto].
  intros i Hi. rewrite (Hsaved i Hi). apply u8_small.
  unfold reg, get. apply (Forall_lookup_total_1 is_u8); [assumption |].
  rewrite Hvlen. unfold CHIP8_REGISTER_COUNT in *. lia.
Qed.

(** X13: Fx65 with [I + x] inside ram loads V0..Vx from [I .. I + x], leaves
    the registers above Vx and ram as they are, and leaves I at
    [I + x + 1]. *)
Theorem load_registers (keys : list Z) (rnd : Z) (s : chip8) (opcode : Z) :
  chip8_current_opcode s = Ok opcode ->
  op_family opcode = 0xf000 -> op_nn opcode = 0x65 ->
  length (v s) = Z.to_nat CHIP8_REGISTER_COUNT ->
  length (ram s) = Z.to_nat CHIP8_RAM_CAPACITY -> Forall is_u8 (ram s) ->
  0 <= I s -> I s + op_x opcode < CHIP8_RAM_CAPACITY ->
  exists s1,
    chip8_execute_instruction keys rnd s = Ok s1 /\
    (forall i, 0 <= i <= op_x opcode -> reg s1 i = get (ram s) (I s + i)) /\
    (forall r, op_x opcode < r -> reg s1 r = reg s r) /\
    ram s1 = ram s /\ I s1 = I s + op_x opcode + 1 /\ pc s1 = u16 (pc s + 2).
Proof.
  intros Hfetch Hf Hnn Hvlen Hlen Hram HI Hfit.
  destruct (load_step keys rnd s opcode Hfetch Hf Hnn Hvlen HI Hfit)
    as (s1 & Hstep & Hloaded & Hrest).
  exists s1. split; [assumption |]. split; [| exact Hrest].
  intros i Hi. rewrite (Hloaded i Hi). apply u8_small.
  unfold get. apply (Forall_lookup_total_1 is_u8); [assumption |].
  rewrite Hlen. unfold CHIP8_RAM_CAPACITY in *. lia.
Qed.

(** X14: registers saved with Fx55 come back with Fx65: in any later state
    whose I is again the address of the save and whose ram still holds the
    saved bytes, Fx65 with the same x gives V0..Vx the values they had at
    the save. *)
Theorem save_load_round_trip
  (keys : list Z) (rnd : Z) (keys' : list Z) (rnd' : Z) (s : chip8) (opcode : Z) :
  chip8_current_opcode s = Ok opcode ->
  op_family opcode = 0xf000 -> op_nn opcode = 0x55 ->
  length (ram s) = Z.to_nat CHIP8_RAM_CAPACITY -> Forall is_u8 (v s) ->
  length (v s) = Z.to_nat CHIP8_REGISTER_COUNT ->
  0 <= I s -> I s + op_x opcode < CHIP8_RAM_CAPACITY ->
  exists s1,
    chip8_execute_instruction keys rnd s = Ok s1 /\
    forall t opcode',
      chip8_current_opcode t = Ok opcode' ->
      op_family opcode' = 0xf000 -> op_nn opcode' = 0x65 -> op_x opcode' = op_x opcode ->
      length (v t) = Z.to_nat CHIP8_REGISTER_COUNT ->
      I t = I s ->
      (forall i, 0 <= i <= op_x opcode -> get (ram t) (I s + i) = get (ram s1) (I s + i)) ->
      exists s2,
        chip8_execute_instruction keys' rnd' t = Ok s2 /\
        forall i, 0 <= i <= op_x opcode -> reg s2 i = reg s i.
Proof.
  intros Hfetch Hf Hnn Hlen Hv Hvlen HI Hfit. pose proof (op_x_range opcode) as Hx.
  destruct (save_step keys rnd s opcode Hfetch Hf Hnn Hlen HI Hfit)
    as (s1 & Hstep & Hsaved & _).
  exists s1. split; [assumption |].
  intros t opcode' Hfetch' Hf' Hnn' Hx' Hvlen' HI' Hram'.
  destruct (load_step keys' rnd' t opcode' Hfetch' Hf' Hnn' Hvlen')
    as (s2 & Hstep' & Hloaded & _); [rewrite HI'; lia | rewrite HI', Hx'; lia |].
  exists s2. split; [assumption |]. intros i Hi.
  rewrite Hloaded by (rewrite Hx'; lia).
  rewrite HI', (Hram' i Hi), (Hsaved i Hi), u8_small by apply is_u8_u8.
  apply u8_small. unfold reg, get. apply (Forall_lookup_total_1 is_u8); [assumption |].
  rewrite Hvlen. unfold CHIP8_REGISTER_COUNT in *. lia.
Qed.

Lemma save_state_facts :
  chip8_current_opcode save_state = Ok 0xf155 /\
  length (ram save_state) = Z.to_nat CHIP8_RAM_CAPACITY /\
  Forall is_u8 (v save_state) /\
  length (v save_state) = Z.to_nat CHIP8_REGISTER_COUNT /\
  0 <= I save_state /\ I save_state + op_x 0xf155 < CHIP8_RAM_CAPACITY.
Proof.
  split; [reflexivity |]. split; [reflexivity |]. split.
  - vm_compute. repeat constructor; discriminate.
  - split; [reflexivity |]. split; [vm_compute; discriminate | reflexivity].
Qed.

Lemma save_registers_witness :
  exists s1,
    chip8_execute_instruction no_keys 0 save_state = Ok s1 /\
    get (ram s1) 0x300 = 7 /\ get (ram s1) 0x301 = 9 /\ I s1 = 0x302.
Proof.
  destruct save_state_facts as (Hfetch & Hlen & Hv & Hvlen & HI & Hfit).
  destruct (save_registers no_keys 0 save_state 0xf155 Hfetch eq_refl eq_refl
              Hlen Hv Hvlen HI Hfit) as (s1 & Hstep & Hsaved & _ & _ & HI1 & _).
  exists s1. split; [exact Hstep |].
  split; [apply (Hsaved 0); vm_compute; split; discriminate |].
  split; [apply (Hsaved 1); vm_compute; split; discriminate | exact HI1].
Defined.

Lemma load_registers_witness :
  exists s1,
    chip8_execute_instruction no_keys 0 (set_I 5 (boot [0xf4; 0x65])) = Ok s1 /\
    reg s1 0 = 0x20 /\ reg s1 4 = 0x70 /\ I s1 = 10.
Proof.
  destruct (load_registers no_keys 0 (set_I 5 (boot [0xf4; 0x65])) 0xf465)
    as (s1 & Hstep & Hloaded & _ & _ & HI1 & _).
  - reflexivity.
  - reflexivity.
  - reflexivity.
  - reflexivity.
  - reflexivity.
  - apply (well_formed_set_I 5); [split; [discriminate | reflexivity] |].
    now apply (chip8_init_well_formed (map byte_of [0xf4; 0x65]) zeroed).
  - vm_compute. discriminate.
  - reflexivity.
  - exists s1. split; [exact Hstep |].
    split; [apply (Hloaded 0); vm_compute; split; discriminate |].
    split; [apply (Hloaded 4); vm_compute; split; discriminate | exact HI1].
Defined.

Lemma save_load_round_trip_witness :
  exists s1 s2,
    chip8_execute_instruction no_keys 0 save_state = Ok s1 /\
    reg (restart s1) 0 = 0 /\ reg (restart s1) 1 = 0 /\
    chip8_execute_instruction no_keys 0 (restart s1) = Ok s2 /\
    reg s2 0 = 7 /\ reg s2 1 = 9.
Proof.
  destruct save_state_facts as (Hfetch & Hlen & Hv & Hvlen & HI & Hfit).
  destruct (save_load_round_trip no_keys 0 no_keys 0 save_state 0xf155 Hfetch eq_refl eq_refl
              Hlen Hv Hvlen HI Hfit) as (s1 & Hstep & Hback).
  assert (Ok s1 = chip8_execute_instruction no_keys 0 save_state) as E by now rewrite Hstep.
  vm_compute in E. injection E as E.
  destruct (Hback (restart s1) 0xf165) as (s2 & Hstep2 & Hregs).
  - rewrite E. reflexivity.
  - reflexivity.
  - reflexivity.
  - reflexivity.
  - rewrite E. reflexivity.
  - rewrite E. reflexivity.
  - intros i Hi. reflexivity.
  - exists s1, s2. split; [exact Hstep |].
    split; [rewrite E; reflexivity |]. split; [rewrite E; reflexivity |].
    split; [exact Hstep2 |].
    split; [apply (Hregs 0) | apply (Hregs 1)]; vm_compute; split; discriminate.
Defined.

(** ** The collision flag *)

(** A row drawn over cells that are all off leaves the flag at 0. *)
Lemma draw_row_no_collision (x y i : Z) (t t' : chip8) :
  draw_row x y i t = Ok t' ->
  (forall j, 0 <= j < 8 -> sprite_bit (sprite_row t i) j = true ->
             cell (display t) (y + i) (x + j) = 0) ->
  reg t 0xf = 0 -> reg t' 0xf = 0.
Proof.
  intros Hrow Hoff Hflag.
  pose proof (proj2 (draw_row_each x y i t t' Hrow)) as Hgrid.
  unfold draw_row in Hrow. apply bind_ok in Hrow as (row & Hload & Hrow).
  assert (row = sprite_row t i) as ->.
  { unfold ram_load in Hload. destruct (in_range (I t + i) CHIP8_RAM_CAPACITY);
      [now injection Hload as <- | discriminate Hload]. }
  pose proof (for_loop_counted
                (fun j u => reg u 0xf = 0 /\
                            forall j', j <= j' < 8 -> sprite_bit (sprite_row t i) j' = true ->
                                       cell (display u) (y + i) (x + j') = 0)
                (draw_pixel x y i (sprite_row t i)) 8 0 t t') as Hloop.
  apply Hloop; [| split; [assumption | intros; apply Hoff; [lia | assumption]] | exact Hrow].
  intros j u u' Hj (Hfu & Hcells) Hpix.
  destruct (sprite_bit (sprite_row t i) j) eqn:Hbit.
  - rewrite draw_pixel_set_bit in Hpix by assumption.
    destruct (in_grid (y + i) (x + j)) eqn:Hin; [| discriminate Hpix].
    apply in_grid_true in Hin. rewrite (Hcells j) in Hpix by (assumption || lia).
    cbn [Z.eqb] in Hpix. injection Hpix as <-. split; [exact Hfu |].
    intros j' Hj' Hbit'. cbn [display set_display].
    pose proof (Hgrid j' ltac:(lia) Hbit') as Hin'. apply in_grid_true in Hin'.
    rewrite cell_insert_other by lia. apply Hcells; [lia | assumption].
  - rewrite draw_pixel_clear_bit in Hpix by assumption. injection Hpix as <-.
    split; [exact Hfu |]. intros j' Hj' Hbit'. apply Hcells; [lia | assumption].
Qed.

Lemma chip8_sprite_draw_no_collision (x y n : Z) (s s' : chip8) :
  chip8_sprite_draw x y n s = Ok s' ->
  length (v s) = Z.to_nat CHIP8_REGISTER_COUNT ->
  (forall i j, 0 <= i < n -> 0 <= j < 8 -> sprite_bit (sprite_row s i) j = true ->
               cell (display s) (y + i) (x + j) = 0) ->
  reg s' 0xf = 0.
Proof.
  intros Hdraw Hlen Hoff.
  pose proof (chip8_sprite_draw_fits s s' x y n Hdraw) as Hfits.
  unfold chip8_sprite_draw in Hdraw.
  pose proof (for_loop_counted
                (fun i t => same_sprite s t /\ reg t 0xf = 0 /\
                            forall i' j, i <= i' < n -> 0 <= j < 8 ->
                                         sprite_bit (sprite_row s i') j = true ->
                                         cell (display t) (y + i') (x + j) = 0)
                (draw_row x y) (Z.to_nat n) 0 (set_reg 0xf 0 s) s') as Hloop.
  apply Hloop; [| | exact Hdraw].
  - intros i t t' Hi (Hsame & Hflag & Hcells) Hrow.
    pose proof (proj1 (draw_row_each x y i t t' Hrow)) as Hsame'.
    split; [destruct Hsame as (? & ?), Hsame' as (? & ?); split; congruence |].
    split.
    + apply (draw_row_no_collision x y i t t' Hrow); [| exact Hflag].
      intros j Hj Hbit. rewrite (sprite_row_same s t i Hsame) in Hbit.
      apply Hcells; [lia | assumption | assumption].
    + intros i' j Hi' Hj Hbit.
      pose proof (Hfits i' j ltac:(lia) Hj Hbit) as Hin. apply in_grid_true in Hin.
      rewrite (draw_row_other_cell x y i t t' (y + i') (x + j) Hrow) by (lia || (intros; lia)).
      apply Hcells; [lia | assumption | assumption].
  - split; [apply same_sprite_start |]. split.
    + rewrite reg_set_reg by (rewrite Hlen; unfold CHIP8_REGISTER_COUNT; lia). reflexivity.
    + intros i' j Hi' Hj Hbit. apply Hoff; [lia | assumption | assumption].
Qed.

(** X15: a draw that completes stores in the cell of every set bit the
    blend of the old cell with the sprite row, and VF tells whether any of
    those cells was not zero before: it is 1 if one of them was, 0 if none
    was. *)
Theorem sprite_collision_flag (s s' : chip8) (x y n : Z) :
  chip8_sprite_draw x y n s = Ok s' ->
  display_shape (display s) ->
  length (v s) = Z.to_nat CHIP8_REGISTER_COUNT ->
  (forall i j, 0 <= i < n -> 0 <= j < 8 -> sprite_bit (sprite_row s i) j = true ->
     cell (display s') (y + i) (x + j)
     = blend (cell (display s) (y + i) (x + j)) (sprite_row s i))
  /\
  (forall i j, 0 <= i < n -> 0 <= j < 8 -> sprite_bit (sprite_row s i) j = true ->
     cell (display s) (y + i) (x + j) <> 0 -> reg s' 0xf = 1)
  /\
  ((forall i j, 0 <= i < n -> 0 <= j < 8 -> sprite_bit (sprite_row s i) j = true ->
      cell (display s) (y + i) (x + j) = 0) -> reg s' 0xf = 0).
Proof.
  intros Hdraw Hshape Hlen. split; [| split].
  - intros i j Hi Hj Hbit.
    now apply (chip8_sprite_draw_target x y n i j s s' Hdraw Hi Hj Hbit Hshape Hlen).
  - intros i j Hi Hj Hbit Hlit.
    now apply (chip8_sprite_draw_target x y n i j s s' Hdraw Hi Hj Hbit Hshape Hlen).
  - now apply chip8_sprite_draw_no_collision.
Qed.

Lemma sprite_collision_flag_witness :
  exists s', chip8_sprite_draw 3 4 5 (boot []) = Ok s' /\ reg s' 0xf = 0 /\
             cell (display s') 4 3 = 0xffffff10.
Proof.
  destruct (chip8_sprite_draw 3 4 5 (boot [])) as [s' | |] eqn:Hdraw.
  - exists s'. split; [reflexivity |].
    destruct (sprite_collision_flag (boot []) s' 3 4 5 Hdraw) as (Hcell & _ & Hoff).
    + split; [reflexivity |]. apply Forall_replicate. reflexivity.
    + reflexivity.
    + split.
      * apply Hoff. intros i j Hi Hj _. unfold cell. cbn [display boot].
        change (display (boot [])) with blank. unfold blank.
        rewrite !lookup_total_replicate_2; [reflexivity | |];
          unfold CHIP8_DISPLAY_WIDTH, CHIP8_DISPLAY_HEIGHT; lia.
      * apply (Hcell 0 0); [lia | lia | reflexivity].
  - vm_compute in Hdraw. discriminate Hdraw.
  - vm_compute in Hdraw. discriminate Hdraw.
Defined.

(** ** The main loop and runs *)

(** X16: the main loop is a run: it executes one instruction per frame,
    each with the keys as the events polled so far have left them, and
    stops after the frame in which [SDL_QUIT] is polled.  What holds of
    every run holds of the main loop. *)
Theorem main_loop_is_run (frames : list (list event * Z)) (keys : list Z) (s : chip8) :
  main_loop frames keys s
  = (s' <- run (fst (frame_inputs frames keys)) s ;;
     Ok (snd (frame_inputs frames keys), s')).
Proof.
  revert keys s. induction frames as [| [events rnd] frames IH]; intros keys s.
  - reflexivity.
  - cbn [main_loop frame_inputs].
    destruct (poll_events events keys) as [running keys1]. destruct running.
    + specialize (IH keys1). destruct (frame_inputs frames keys1) as [inputs final].
      cbn [fst snd run] in *.
      destruct (chip8_execute_instruction keys1 rnd s) as [s1 | o | a]; cbn [bind];
        [apply IH | reflexivity | reflexivity].
    + cbn [fst snd run].
      now destruct (chip8_execute_instruction keys1 rnd s) as [s1 | o | a].
Qed.

(** ** Cxnn *)

Lemma land_le (a b : Z) : 0 <= b -> 0 <= Z.land a b <= b.
Proof.
  intros Hb. split; [apply Z.land_nonneg; now right |].
  assert (Z.land (Z.ldiff b a) (Z.land b a) = 0) as Hdisj.
  { apply Z.bits_inj'. intros k Hk.
    rewrite !Z.land_spec, Z.ldiff_spec, Z.bits_0.
    now destruct (Z.testbit b k), (Z.testbit a k). }
  pose proof (Z.add_lor_land (Z.ldiff b a) (Z.land b a)) as Hadd.
  rewrite Hdisj, Z.lor_ldiff_and, Z.add_0_r in Hadd.
  assert (0 <= Z.ldiff b a) by (apply Z.ldiff_nonneg; now left).
  rewrite (Z.land_comm a b). lia.
Qed.

(** X17: whatever [random ()] returns, Cxnn stores a value between 0 and
    nn with no bit outside of nn, moves pc on by 2 and changes no other
    register. *)
Theorem random_is_masked (keys : list Z) (rnd : Z) (s : chip8) (opcode : Z) :
  chip8_current_opcode s = Ok opcode -> op_family opcode = 0xc000 ->
  length (v s) = Z.to_nat CHIP8_REGISTER_COUNT ->
  exists s',
    chip8_execute_instruction keys rnd s = Ok s' /\
    0 <= reg s' (op_x opcode) <= op_nn opcode /\
    Z.land (reg s' (op_x opcode)) (op_nn opcode) = reg s' (op_x opcode) /\
    (forall r, 0 <= r -> r <> op_x opcode -> reg s' r = reg s r) /\
    pc s' = u16 (pc s + 2).
Proof.
  intros Hfetch Hf Hlen. pose proof (op_x_range opcode) as Hx.
  pose proof (op_nn_range opcode) as Hnn.
  pose proof (land_le (rnd mod 256) (op_nn opcode) ltac:(lia)) as Hland.
  dispatch Hfetch Hf. eexists. split; [reflexivity |].
  rewrite !reg_add_pc, reg_set_reg by (rewrite Hlen; lia).
  rewrite u8_small by lia. split; [exact Hland |]. split.
  - now rewrite <- Z.land_assoc, Z.land_diag.
  - split; [| reflexivity]. intros r Hr Hne. rewrite reg_add_pc.
    apply reg_set_reg_other; lia.
Qed.

Lemma random_is_masked_witness :
  exists s',
    chip8_execute_instruction no_keys 0x7fffffff (boot [0xc3; 0x0f]) = Ok s' /\
    0 <= reg s' 3 <= 0x0f.
Proof.
  destruct (random_is_masked no_keys 0x7fffffff (boot [0xc3; 0x0f]) 0xc30f
              eq_refl eq_refl eq_refl) as (s' & Hstep & Hrange & _).
  exists s'. split; [exact Hstep | exact Hrange].
Defined.

(** ** Fx29 *)

(** X18: after a load, as long as the first 80 bytes of ram are those of
    the load, Fx29 on a digit V[x] below 16 leaves I at the glyph of that
    digit: the five bytes at I are its rows in the font table. *)
Theorem glyph_address
  (image : list byte) (st s0 : chip8) (keys : list Z) (rnd : Z) (s : chip8) (opcode : Z) :
  chip8_init (Some image) st = (InitDone, s0) ->
  (forall a, 0 <= a < 80 -> get (ram s) a = get (ram s0) a) ->
  chip8_current_opcode s = Ok opcode ->
  op_family opcode = 0xf000 -> op_nn opcode = 0x29 ->
  0 <= reg s (op_x opcode) < 16 ->
  exists s',
    chip8_execute_instruction keys rnd s = Ok s' /\
    I s' = 5 * reg s (op_x opcode) /\
    (forall k, 0 <= k < 5 ->
               get (ram s') (I s' + k) = glyph_row (reg s (op_x opcode)) k) /\
    pc s' = u16 (pc s + 2).
Proof.
  intros Hinit Hfont Hfetch Hf Hnn Hdigit.
  destruct (loaded_state_facts image st s0 Hinit) as (_ & Hlayout & _).
  dispatch Hfetch Hf. unfold exec_f. cbv zeta. rewrite Hnn.
  cbv beta iota delta [Z.eqb Pos.eqb]. eexists. split; [reflexivity |].
  cbn [I ram pc add_pc set_pc set_I]. rewrite u16_small by lia.
  split; [lia |]. split; [| reflexivity].
  intros k Hk. replace (reg s (op_x opcode) * 5 + k) with (5 * reg s (op_x opcode) + k) by lia.
  rewrite Hfont by lia. rewrite Hlayout. unfold glyph_row, get.
  apply lookup_total_app_l. change (length chip8_numbers) with 80%nat. lia.
Qed.

Lemma glyph_address_witness :
  let s := set_reg 2 0xa (boot [0xf2; 0x29]) in
  exists s',
    chip8_execute_instruction no_keys 0 s = Ok s' /\ I s' = 50 /\
    get (ram s') (I s') = 0xf0 /\ get (ram s') (I s' + 4) = 0x90.
Proof.
  intros s.
  destruct (glyph_address (map byte_of [0xf2; 0x29]) zeroed (boot [0xf2; 0x29])
              no_keys 0 s 0xf229) as (s' & Hstep & HI & Hrows & _).
  - reflexivity.
  - intros a Ha. reflexivity.
  - reflexivity.
  - reflexivity.
  - reflexivity.
  - vm_compute. split; [discriminate | reflexivity].
  - exists s'. split; [exact Hstep |]. split; [exact HI |].
    split; [rewrite <- (Z.add_0_r (I s')); apply (Hrows 0) | apply (Hrows 4)]; lia.
Defined.
